(** * Student Registration System: the record core of [script.js]

    A shallow embedding of the validation, CRUD and persistence code of
    [script.js], followed by the properties of that code.

    - JavaScript strings are sequences of UTF-16 code units: [jsstring].
    - The module-wide variables ([students], [editIndex]), the one
      [localStorage] key and the DOM nodes the script reads and writes are
      the fields of [State].
    - Functions of the script are computations in the monad [M]: they
      thread the state and either complete normally or throw; a throw
      keeps the mutations made before it. *)

From Stdlib Require Import String Ascii.
From Stdlib Require Import List NArith ZArith Bool Lia Arith.
Import ListNotations.

(** ** Strings *)

(** A JavaScript string: its UTF-16 code units, in order. *)
Definition jsstring := list N.

Definition ch (a : ascii) : N := N_of_ascii a.

(** A string literal of the script (ASCII only). *)
Definition str (s : string) : jsstring := map N_of_ascii (list_ascii_of_string s).

Definition jsstring_eqb (a b : jsstring) : bool :=
  if list_eq_dec N.eq_dec a b then true else false.

Definition in_range (lo hi c : N) : bool := ((lo <=? c) && (c <=? hi))%N.

(** ECMAScript WhiteSpace and LineTerminator code points: what [\s]
    matches and what [String.prototype.trim] strips. *)
Definition is_space (c : N) : bool :=
  in_range 9 13 c || (c =? 32)%N || (c =? 160)%N || (c =? 5760)%N
  || in_range 8192 8202 c || (c =? 8232)%N || (c =? 8233)%N
  || (c =? 8239)%N || (c =? 8287)%N || (c =? 12288)%N || (c =? 65279)%N.

(** [\d] *)
Definition is_digit (c : N) : bool := in_range 48 57 c.

(** [A-Za-z] *)
Definition is_letter (c : N) : bool := in_range 65 90 c || in_range 97 122 c.

Fixpoint trimStart (s : jsstring) : jsstring :=
  match s with
  | [] => []
  | c :: r => if is_space c then trimStart r else s
  end.

Definition trimEnd (s : jsstring) : jsstring := rev (trimStart (rev s)).

(** [str.trim()] *)
Definition trim (s : jsstring) : jsstring := trimEnd (trimStart s).

(** ** Regular expressions

    The patterns of the script use classes, concatenation and [+] only,
    and are anchored at both ends, so [test] is a match of the whole
    string; matching is by derivatives. *)

Inductive regex : Type :=
| RNone
| REps
| RClass (p : N -> bool)
| RCat (a b : regex)
| RAlt (a b : regex)
| RStar (a : regex).

Definition RPlus (a : regex) : regex := RCat a (RStar a).
Definition RChar (c : N) : regex := RClass (N.eqb c).

Fixpoint nullable (r : regex) : bool :=
  match r with
  | RNone => false
  | REps => true
  | RClass _ => false
  | RCat a b => nullable a && nullable b
  | RAlt a b => nullable a || nullable b
  | RStar _ => true
  end.

Fixpoint deriv (c : N) (r : regex) : regex :=
  match r with
  | RNone => RNone
  | REps => RNone
  | RClass p => if p c then REps else RNone
  | RCat a b =>
      if nullable a then RAlt (RCat (deriv c a) b) (deriv c b)
      else RCat (deriv c a) b
  | RAlt a b => RAlt (deriv c a) (deriv c b)
  | RStar a => RCat (deriv c a) (RStar a)
  end.

(** [/^r$/.test(s)] *)
Fixpoint regex_test (r : regex) (s : jsstring) : bool :=
  match s with
  | [] => nullable r
  | c :: s' => regex_test (deriv c r) s'
  end.

(** The strings a pattern matches. *)
Inductive matches : regex -> jsstring -> Prop :=
| MEps : matches REps []
| MClass (p : N -> bool) (c : N) : p c = true -> matches (RClass p) [c]
| MCat (a b : regex) (s t : jsstring) :
    matches a s -> matches b t -> matches (RCat a b) (s ++ t)
| MAltL (a b : regex) (s : jsstring) : matches a s -> matches (RAlt a b) s
| MAltR (a b : regex) (s : jsstring) : matches b s -> matches (RAlt a b) s
| MStarNil (a : regex) : matches (RStar a) []
| MStarApp (a : regex) (s t : jsstring) :
    matches a s -> matches (RStar a) t -> matches (RStar a) (s ++ t).

(** [/^[A-Za-z\s]+$/] *)
Definition re_letters : regex := RPlus (RClass (fun c => is_letter c || is_space c)).

(** [/^\d+$/] *)
Definition re_digits : regex := RPlus (RClass is_digit).

(** [[^\s@]] *)
Definition not_space_at (c : N) : bool := negb (is_space c || (c =? ch "@")%N).

(** [/^[^\s@]+@[^\s@]+\.[^\s@]+$/] *)
Definition re_email : regex :=
  RCat (RPlus (RClass not_space_at))
    (RCat (RChar (ch "@"))
       (RCat (RPlus (RClass not_space_at))
          (RCat (RChar (ch ".")) (RPlus (RClass not_space_at))))).

(** ** Validation helpers *)

Definition isLettersOnly (s : jsstring) : bool := regex_test re_letters (trim s).
Definition isDigitsOnly (s : jsstring) : bool := regex_test re_digits s.
Definition isValidEmail (s : jsstring) : bool := regex_test re_email (trim s).

(** [str.replace(/\D/g, '')] *)
Definition stripNonDigits (s : jsstring) : jsstring := filter is_digit s.

(** [str.replace(/[^A-Za-z\s]/g, '')] *)
Definition stripNonLetters (s : jsstring) : jsstring :=
  filter (fun c => is_letter c || is_space c) s.

Definition minDigits (s : jsstring) (n : nat) : bool :=
  n <=? length (stripNonDigits s).

(** ** JSON values

    What [JSON.parse] produces. A number is kept as the exact decimal
    value of its literal, [(-1)^neg * m * 10^e]; the Number it denotes is
    that value rounded to binary64. An object is its list of own
    properties in enumeration order. *)

#[local] Set Warnings "-register-all".

Inductive json : Type :=
| JNull
| JBool (b : bool)
| JNumber (neg : bool) (m : N) (e : Z)
| JString (s : jsstring)
| JArray (elems : list json)
| JObject (props : list (jsstring * json)).

(** The decimal value [m * 10^e] rounds to zero in binary64 exactly when it
    is at most [2^-1075], half of the least subnormal (ties go to even). *)
Definition rounds_to_zero (m : N) (e : Z) : bool :=
  if (m =? 0)%N then true
  else if (0 <=? e)%Z then false
  else (m * 2 ^ 1075 <=? 10 ^ Z.to_N (- e))%N.

(** ToBoolean, as used by [||]. *)
Definition ToBoolean (v : json) : bool :=
  match v with
  | JNull => false
  | JBool b => b
  | JNumber _ m e => negb (rounds_to_zero m e)
  | JString s => match s with [] => false | _ => true end
  | JArray _ => true
  | JObject _ => true
  end.

(** [a || b] on values already computed. *)
Definition js_or (a b : json) : json := if ToBoolean a then a else b.

(** *** Property keys

    An array index is a canonical decimal numeral below [2^32 - 1]; own
    properties enumerate array indices first, ascending, then the other
    keys in creation order. *)

Definition digits_value (ds : jsstring) : N :=
  fold_left (fun a d => (10 * a + (d - 48))%N) ds 0%N.

Definition array_index (k : jsstring) : option N :=
  match k with
  | [] => None
  | c :: r =>
      if forallb is_digit k && (negb (c =? 48)%N || match r with [] => true | _ => false end)
         && (length k <=? 10)
      then let n := digits_value k in
           if (n <? 4294967295)%N then Some n else None
      else None
  end.

(** Where a new property [k] goes in the property list. *)
Fixpoint obj_insert (k : jsstring) (v : json) (props : list (jsstring * json))
  : list (jsstring * json) :=
  match props with
  | [] => [(k, v)]
  | (k', v') :: rest =>
      match array_index k, array_index k' with
      | Some n, Some n' =>
          if (n <? n')%N then (k, v) :: props else (k', v') :: obj_insert k v rest
      | Some _, None => (k, v) :: props
      | None, _ => (k', v') :: obj_insert k v rest
      end
  end.

Fixpoint obj_replace (k : jsstring) (v : json) (props : list (jsstring * json))
  : option (list (jsstring * json)) :=
  match props with
  | [] => None
  | (k', v') :: rest =>
      if jsstring_eqb k' k then Some ((k', v) :: rest)
      else match obj_replace k v rest with
           | Some rest' => Some ((k', v') :: rest')
           | None => None
           end
  end.

(** CreateDataProperty: an existing key keeps its place and takes the new
    value. *)
Definition obj_set (k : jsstring) (v : json) (props : list (jsstring * json))
  : list (jsstring * json) :=
  match obj_replace k v props with
  | Some props' => props'
  | None => obj_insert k v props
  end.

(** ** [JSON.parse] *)

(** The double quote. *)
Definition quote : N := 34%N.

(** JSON white space: tab, line feed, carriage return, space. *)
Definition is_json_ws (c : N) : bool :=
  (c =? 9)%N || (c =? 10)%N || (c =? 13)%N || (c =? 32)%N.

Fixpoint skip_ws (s : jsstring) : jsstring :=
  match s with
  | [] => []
  | c :: r => if is_json_ws c then skip_ws r else s
  end.

Definition hexval (c : N) : option N :=
  if in_range 48 57 c then Some (c - 48)%N
  else if in_range 65 70 c then Some (c - 55)%N
  else if in_range 97 102 c then Some (c - 87)%N
  else None.

Definition hex4 (a b c d : N) : option N :=
  match hexval a, hexval b, hexval c, hexval d with
  | Some x, Some y, Some z, Some w => Some (((x * 16 + y) * 16 + z) * 16 + w)%N
  | _, _, _, _ => None
  end.

(** The character an escape letter stands for. *)
Definition unescape (c : N) : option N :=
  if (c =? quote)%N then Some (quote)
  else if (c =? ch "\")%N then Some (ch "\")
  else if (c =? ch "/")%N then Some (ch "/")
  else if (c =? ch "b")%N then Some 8%N
  else if (c =? ch "f")%N then Some 12%N
  else if (c =? ch "n")%N then Some 10%N
  else if (c =? ch "r")%N then Some 13%N
  else if (c =? ch "t")%N then Some 9%N
  else None.

(** The characters of a string literal, after its opening quote, up to and
    including the closing quote. *)
Fixpoint parse_chars (s : jsstring) : option (jsstring * jsstring) :=
  match s with
  | [] => None
  | c :: r =>
      if (c =? quote)%N then Some ([], r)
      else if (c =? ch "\")%N then
        match r with
        | [] => None
        | e :: r1 =>
            if (e =? ch "u")%N then
              match r1 with
              | h1 :: h2 :: h3 :: h4 :: r2 =>
                  match hex4 h1 h2 h3 h4 with
                  | Some u =>
                      match parse_chars r2 with
                      | Some (t, rest) => Some (u :: t, rest)
                      | None => None
                      end
                  | None => None
                  end
              | _ => None
              end
            else
              match unescape e with
              | Some u =>
                  match parse_chars r1 with
                  | Some (t, rest) => Some (u :: t, rest)
                  | None => None
                  end
              | None => None
              end
        end
      else if (c <? 32)%N then None
      else
        match parse_chars r with
        | Some (t, rest) => Some (c :: t, rest)
        | None => None
        end
  end.

Fixpoint span_digits (s : jsstring) : jsstring * jsstring :=
  match s with
  | [] => ([], [])
  | c :: r =>
      if is_digit c then let (ds, rest) := span_digits r in (c :: ds, rest)
      else ([], s)
  end.

(** [0] or a numeral without leading zero. *)
Definition parse_int (s : jsstring) : option (jsstring * jsstring) :=
  match s with
  | [] => None
  | c :: r =>
      if (c =? 48)%N then Some ([c], r)
      else if in_range 49 57 c then
        let (ds, rest) := span_digits r in Some (c :: ds, rest)
      else None
  end.

(** An optional fraction: its digits (none when absent). *)
Definition parse_frac (s : jsstring) : option (jsstring * jsstring) :=
  match s with
  | c :: r =>
      if (c =? ch ".")%N then
        match span_digits r with
        | ([], _) => None
        | (ds, rest) => Some (ds, rest)
        end
      else Some ([], s)
  | [] => Some ([], s)
  end.

(** The digits of an exponent, after its sign. *)
Definition exp_digits (sign : Z) (s : jsstring) : option (Z * jsstring) :=
  match span_digits s with
  | ([], _) => None
  | (ds, rest) => Some ((sign * Z.of_N (digits_value ds))%Z, rest)
  end.

(** An optional exponent: its value (zero when absent). *)
Definition parse_exp (s : jsstring) : option (Z * jsstring) :=
  match s with
  | c :: r =>
      if (c =? ch "e")%N || (c =? ch "E")%N then
        match r with
        | c1 :: r' =>
            if (c1 =? ch "-")%N then exp_digits (-1) r'
            else if (c1 =? ch "+")%N then exp_digits 1 r'
            else exp_digits 1 r
        | [] => None
        end
      else Some (0%Z, s)
  | [] => Some (0%Z, s)
  end.

(** Integer part, fraction and exponent of a number, after its sign. *)
Definition number_body (neg : bool) (s : jsstring) : option (json * jsstring) :=
  match parse_int s with
  | None => None
  | Some (ip, s2) =>
      match parse_frac s2 with
      | None => None
      | Some (fp, s3) =>
          match parse_exp s3 with
          | None => None
          | Some (x, s4) =>
              Some (JNumber neg (digits_value (ip ++ fp))
                      (x - Z.of_nat (length fp))%Z, s4)
          end
      end
  end.

Definition parse_number (s : jsstring) : option (json * jsstring) :=
  match s with
  | c :: r => if (c =? ch "-")%N then number_body true r else number_body false s
  | [] => None
  end.

(** [s] starts with the word [w]: the rest after it. *)
Fixpoint strip_prefix (w s : jsstring) : option jsstring :=
  match w, s with
  | [], _ => Some s
  | a :: w', b :: s' => if (a =? b)%N then strip_prefix w' s' else None
  | _ :: _, [] => None
  end.

Inductive presult (A : Type) : Type :=
| Parsed (a : A) (rest : jsstring)
| Malformed
| OutOfFuel.
Arguments Parsed {A} a rest.
Arguments Malformed {A}.
Arguments OutOfFuel {A}.

Definition parse_word (w : string) (v : json) (s : jsstring) : presult json :=
  match strip_prefix (str w) s with
  | Some rest => Parsed v rest
  | None => Malformed
  end.

Definition of_option {A} (o : option (A * jsstring)) : presult A :=
  match o with
  | Some (a, rest) => Parsed a rest
  | None => Malformed
  end.

(** A JSON value with white space before it; the elements of an array after
    its bracket; the members of an object after its brace. *)
Fixpoint parse_value (fuel : nat) (s : jsstring) {struct fuel} : presult json :=
  match fuel with
  | O => OutOfFuel
  | S f =>
      match skip_ws s with
      | [] => Malformed
      | c :: r =>
          if (c =? ch "[")%N then
            match skip_ws r with
            | [] => Malformed
            | c1 :: r1 =>
                if (c1 =? ch "]")%N then Parsed (JArray []) r1
                else parse_elements f r []
            end
          else if (c =? ch "{")%N then
            match skip_ws r with
            | [] => Malformed
            | c1 :: r1 =>
                if (c1 =? ch "}")%N then Parsed (JObject []) r1
                else parse_members f r []
            end
          else if (c =? quote)%N then
            match parse_chars r with
            | Some (t, rest) => Parsed (JString t) rest
            | None => Malformed
            end
          else if (c =? ch "n")%N then parse_word "null" JNull (c :: r)
          else if (c =? ch "t")%N then parse_word "true" (JBool true) (c :: r)
          else if (c =? ch "f")%N then parse_word "false" (JBool false) (c :: r)
          else of_option (parse_number (c :: r))
      end
  end

with parse_elements (fuel : nat) (s : jsstring) (acc : list json) {struct fuel}
  : presult json :=
  match fuel with
  | O => OutOfFuel
  | S f =>
      match parse_value f s with
      | Parsed v r =>
          match skip_ws r with
          | [] => Malformed
          | c :: r1 =>
              if (c =? ch ",")%N then parse_elements f r1 (acc ++ [v])
              else if (c =? ch "]")%N then Parsed (JArray (acc ++ [v])) r1
              else Malformed
          end
      | Malformed => Malformed
      | OutOfFuel => OutOfFuel
      end
  end

with parse_members (fuel : nat) (s : jsstring) (acc : list (jsstring * json))
  {struct fuel} : presult json :=
  match fuel with
  | O => OutOfFuel
  | S f =>
      match skip_ws s with
      | [] => Malformed
      | c :: r =>
          if (c =? quote)%N then
            match parse_chars r with
            | None => Malformed
            | Some (k, r1) =>
                match skip_ws r1 with
                | [] => Malformed
                | c1 :: r2 =>
                    if (c1 =? ch ":")%N then
                      match parse_value f r2 with
                      | Parsed v r3 =>
                          match skip_ws r3 with
                          | [] => Malformed
                          | c3 :: r4 =>
                              if (c3 =? ch ",")%N then parse_members f r4 (obj_set k v acc)
                              else if (c3 =? ch "}")%N then Parsed (JObject (obj_set k v acc)) r4
                              else Malformed
                          end
                      | Malformed => Malformed
                      | OutOfFuel => OutOfFuel
                      end
                    else Malformed
                end
            end
          else Malformed
      end
  end.

(** The outcome of a call that may throw. *)
Inductive exn : Type := TypeError | SyntaxError.

Inductive completion (A : Type) : Type :=
| Normal (a : A)
| Throw (e : exn).
Arguments Normal {A} a.
Arguments Throw {A} e.

(** The fuel [parse_value] is given: twice the length of the text, and one
    ([parse_value_fuel] shows it never runs out). *)
Definition parse_fuel (text : jsstring) : nat := 2 * length text + 1.

(** [JSON.parse(text)]: one value, white space around it, nothing else. *)
Definition JSON_parse (text : jsstring) : completion json :=
  match parse_value (parse_fuel text) text with
  | Parsed v rest =>
      match skip_ws rest with
      | [] => Normal v
      | _ :: _ => Throw SyntaxError
      end
  | _ => Throw SyntaxError
  end.

(** ** [JSON.stringify] of the record array *)

(** One record: the object literal the handlers build, its four properties
    created in this order. *)
Record Student : Type := mkStudent {
  name : jsstring;
  studentId : jsstring;
  email : jsstring;
  contact : jsstring
}.

(** An array element: a record, or a hole. *)
Definition slot := option Student.

Definition is_lead (c : N) : bool := in_range 55296 56319 c.
Definition is_trail (c : N) : bool := in_range 56320 57343 c.

Definition hexdigit (d : N) : N := if (d <? 10)%N then (48 + d)%N else (87 + d)%N.

(** UnicodeEscape: a backslash, [u] and four lower-case hexadecimal digits. *)
Definition UnicodeEscape (c : N) : jsstring :=
  [ch "\"; ch "u"; hexdigit (c / 4096); hexdigit ((c / 256) mod 16);
   hexdigit ((c / 16) mod 16); hexdigit (c mod 16)]%N.

(** One code point that is not a surrogate. *)
Definition quote_unit (c : N) : jsstring :=
  if (c =? 8)%N then [ch "\"; ch "b"]
  else if (c =? 9)%N then [ch "\"; ch "t"]
  else if (c =? 10)%N then [ch "\"; ch "n"]
  else if (c =? 12)%N then [ch "\"; ch "f"]
  else if (c =? 13)%N then [ch "\"; ch "r"]
  else if (c =? quote)%N then [ch "\"; quote]
  else if (c =? ch "\")%N then [ch "\"; ch "\"]
  else if (c <? 32)%N then UnicodeEscape c
  else [c].

(** The code points of the string in turn: a surrogate pair is copied, a
    lone surrogate is escaped. *)
Fixpoint quote_chars (s : jsstring) : jsstring :=
  match s with
  | [] => []
  | c :: r =>
      if is_lead c then
        match r with
        | d :: r' =>
            if is_trail d then c :: d :: quote_chars r'
            else UnicodeEscape c ++ quote_chars r
        | [] => UnicodeEscape c
        end
      else if is_trail c then UnicodeEscape c ++ quote_chars r
      else quote_unit c ++ quote_chars r
  end.

Definition QuoteJSONString (s : jsstring) : jsstring :=
  quote :: quote_chars s ++ [quote].

Definition stringify_property (key : string) (value : jsstring) : jsstring :=
  QuoteJSONString (str key) ++ ch ":" :: QuoteJSONString value.

Definition stringify_student (s : Student) : jsstring :=
  ch "{" :: stringify_property "name" (name s)
    ++ ch "," :: stringify_property "studentId" (studentId s)
    ++ ch "," :: stringify_property "email" (email s)
    ++ ch "," :: stringify_property "contact" (contact s)
    ++ [ch "}"].

(** A hole is written as [null]. *)
Definition stringify_slot (x : slot) : jsstring :=
  match x with
  | Some s => stringify_student s
  | None => str "null"
  end.

Fixpoint join_comma (parts : list jsstring) : jsstring :=
  match parts with
  | [] => []
  | [p] => p
  | p :: rest => p ++ ch "," :: join_comma rest
  end.

(** [JSON.stringify(students)] *)
Definition JSON_stringify (a : list slot) : jsstring :=
  ch "[" :: join_comma (map stringify_slot a) ++ [ch "]"].

(** The value a record is, as [JSON.parse] builds it. *)
Definition student_value (s : Student) : json :=
  JObject [(str "name", JString (name s)); (str "studentId", JString (studentId s));
           (str "email", JString (email s)); (str "contact", JString (contact s))].

(** The value an array of records is. *)
Definition students_value (R : list Student) : json := JArray (map student_value R).

(** ** Program state *)

(** The [value] of the four inputs of the form. *)
Record Form : Type := mkForm {
  nameInput : jsstring;
  studentIdInput : jsstring;
  emailInput : jsstring;
  contactInput : jsstring
}.

(** The [textContent] of the four error elements. *)
Record Errors : Type := mkErrors {
  nameError : jsstring;
  studentIdError : jsstring;
  emailError : jsstring;
  contactError : jsstring
}.

(** A table row: the text of its four cells and the index its Edit and
    Delete buttons were created with. *)
Record Row : Type := mkRow {
  row_cells : Student;
  row_index : nat
}.

Record State : Type := mkState {
  students : list slot;          (* let students *)
  editIndex : option nat;        (* let editIndex; None is null *)
  storage : option jsstring;     (* localStorage item "students" *)
  inputs : Form;                 (* values of the inputs *)
  defaults : Form;               (* values form.reset() restores *)
  errors : Errors;
  submitHidden : bool;
  updateHidden : bool;
  cancelHidden : bool;
  tbody : list Row;
  scrollable : bool              (* tableWrap has class scrollable *)
}.

Definition with_students (v : list slot) (st : State) : State :=
  mkState v (editIndex st) (storage st) (inputs st) (defaults st) (errors st)
    (submitHidden st) (updateHidden st) (cancelHidden st) (tbody st) (scrollable st).

Definition with_editIndex (v : option nat) (st : State) : State :=
  mkState (students st) v (storage st) (inputs st) (defaults st) (errors st)
    (submitHidden st) (updateHidden st) (cancelHidden st) (tbody st) (scrollable st).

Definition with_storage (v : option jsstring) (st : State) : State :=
  mkState (students st) (editIndex st) v (inputs st) (defaults st) (errors st)
    (submitHidden st) (updateHidden st) (cancelHidden st) (tbody st) (scrollable st).

Definition with_inputs (v : Form) (st : State) : State :=
  mkState (students st) (editIndex st) (storage st) v (defaults st) (errors st)
    (submitHidden st) (updateHidden st) (cancelHidden st) (tbody st) (scrollable st).

Definition with_errors (v : Errors) (st : State) : State :=
  mkState (students st) (editIndex st) (storage st) (inputs st) (defaults st) v
    (submitHidden st) (updateHidden st) (cancelHidden st) (tbody st) (scrollable st).

Definition with_buttons (submit update cancel : bool) (st : State) : State :=
  mkState (students st) (editIndex st) (storage st) (inputs st) (defaults st) (errors st)
    submit update cancel (tbody st) (scrollable st).

Definition with_table (rows : list Row) (scroll : bool) (st : State) : State :=
  mkState (students st) (editIndex st) (storage st) (inputs st) (defaults st) (errors st)
    (submitHidden st) (updateHidden st) (cancelHidden st) rows scroll.

(** ** Computations *)

Definition M (A : Type) : Type := State -> completion A * State.

Definition ret {A} (a : A) : M A := fun st => (Normal a, st).

Definition bind {A B} (m : M A) (k : A -> M B) : M B :=
  fun st =>
    match m st with
    | (Normal a, st') => k a st'
    | (Throw e, st') => (Throw e, st')
    end.

Definition get : M State := fun st => (Normal st, st).
Definition modify (f : State -> State) : M unit := fun st => (Normal tt, f st).
Definition lift {A} (c : completion A) : M A := fun st => (c, st).

(** [try { m } catch { h }] *)
Definition try_catch {A} (m h : M A) : M A :=
  fun st =>
    match m st with
    | (Normal a, st') => (Normal a, st')
    | (Throw _, st') => h st'
    end.

Definition when (b : bool) (m : M unit) : M unit := if b then m else ret tt.

Declare Scope js_scope.
Delimit Scope js_scope with js.
Notation "x <- m ;; k" := (bind m (fun x => k))
  (at level 61, m at next level, right associativity) : js_scope.
Notation "m ;; k" := (bind m (fun _ => k))
  (at level 61, right associativity) : js_scope.
Local Open Scope js_scope.

Definition result {A} (m : M A) (st : State) : completion A := fst (m st).
Definition after {A} (m : M A) (st : State) : State := snd (m st).

(** ** Persist and load *)

(** [localStorage.setItem("students", JSON.stringify(students))]; the
    store is taken to be available and to have room. *)
Definition saveStudents : M unit :=
  modify (fun st => with_storage (Some (JSON_stringify (students st))) st).

(** ToString of what [getItem] returns: [null] for a missing item. *)
Definition item_text (item : option jsstring) : jsstring :=
  match item with
  | Some text => text
  | None => str "null"
  end.

Definition loadStudents : M json :=
  try_catch
    (st <- get ;;
     v <- lift (JSON_parse (item_text (storage st))) ;;
     ret (js_or v (JArray [])))
    (ret (JArray [])).

(** ** Error display *)

Inductive errorEl : Type := NameErrorEl | StudentIdErrorEl | EmailErrorEl | ContactErrorEl.

Definition set_text (el : errorEl) (msg : jsstring) (e : Errors) : Errors :=
  match el with
  | NameErrorEl => mkErrors msg (studentIdError e) (emailError e) (contactError e)
  | StudentIdErrorEl => mkErrors (nameError e) msg (emailError e) (contactError e)
  | EmailErrorEl => mkErrors (nameError e) (studentIdError e) msg (contactError e)
  | ContactErrorEl => mkErrors (nameError e) (studentIdError e) (emailError e) msg
  end.

Definition setError (el : errorEl) (msg : jsstring) : M unit :=
  modify (fun st => with_errors (set_text el msg (errors st)) st).

Definition noErrors : Errors := mkErrors [] [] [] [].

Definition clearErrors : M unit := modify (with_errors noErrors).

(** ** Validation *)

(** [!s] for a string. *)
Definition isEmpty (s : jsstring) : bool :=
  match s with [] => true | _ => false end.

(** [idx !== editIndex] *)
Definition index_differs (idx : nat) (e : option nat) : bool :=
  match e with
  | Some i => negb (idx =? i)
  | None => true
  end.

(** The callback of [findIndex]; reading a property of a hole throws. *)
Definition sameIdElsewhere (id : jsstring) (e : option nat) (s : slot) (idx : nat)
  : completion bool :=
  match s with
  | None => Throw TypeError
  | Some r => Normal (jsstring_eqb (studentId r) id && index_differs idx e)
  end.

Fixpoint findIndex_from (pred : slot -> nat -> completion bool) (a : list slot)
  (idx : nat) : completion (option nat) :=
  match a with
  | [] => Normal None
  | x :: r =>
      match pred x idx with
      | Normal true => Normal (Some idx)
      | Normal false => findIndex_from pred r (S idx)
      | Throw e => Throw e
      end
  end.

(** [a.findIndex(pred)]; [None] is [-1]. *)
Definition findIndex (pred : slot -> nat -> completion bool) (a : list slot)
  : completion (option nat) := findIndex_from pred a 0.

Definition validateForm (payload : Student) : M bool :=
  clearErrors ;;
  let name := name payload in
  let studentId := studentId payload in
  let email := email payload in
  let contact := contact payload in
  if isEmpty name || isEmpty studentId || isEmpty email || isEmpty contact then
    when (isEmpty name) (setError NameErrorEl (str "Name is required.")) ;;
    when (isEmpty studentId) (setError StudentIdErrorEl (str "Student ID is required.")) ;;
    when (isEmpty email) (setError EmailErrorEl (str "Email is required.")) ;;
    when (isEmpty contact) (setError ContactErrorEl (str "Contact number is required.")) ;;
    ret false
  else if negb (isLettersOnly name) then
    setError NameErrorEl (str "Only letters and spaces are allowed.") ;;
    ret false
  else if negb (isDigitsOnly studentId) then
    setError StudentIdErrorEl (str "Student ID must contain digits only.") ;;
    ret false
  else if negb (isValidEmail email) then
    setError EmailErrorEl (str "Please enter a valid email address.") ;;
    ret false
  else if negb (isDigitsOnly contact) then
    setError ContactErrorEl (str "Contact number must contain digits only.") ;;
    ret false
  else if negb (minDigits contact 10) then
    setError ContactErrorEl (str "Contact number must have at least 10 digits.") ;;
    ret false
  else
    st <- get ;;
    duplicateIndex <- lift (findIndex (sameIdElsewhere studentId (editIndex st)) (students st)) ;;
    match duplicateIndex with
    | Some _ =>
        setError StudentIdErrorEl (str "This Student ID already exists.") ;;
        ret false
    | None => ret true
    end.

(** ** Rendering *)

(** [forEach] visits the elements that exist and passes their index. *)
Fixpoint render_rows (a : list slot) (index : nat) : list Row :=
  match a with
  | [] => []
  | Some s :: r => mkRow s index :: render_rows r (S index)
  | None :: r => render_rows r (S index)
  end.

Definition render : M unit :=
  modify (fun st =>
            let rows := render_rows (students st) 0 in
            with_table rows (6 <? length rows) st).

(** ** Edit session *)

Definition form_of (s : Student) : Form :=
  mkForm (name s) (studentId s) (email s) (contact s).

(** [students[index]]: undefined for a hole and past the end. *)
Definition element (a : list slot) (index : nat) : slot :=
  match nth_error a index with
  | Some x => x
  | None => None
  end.

Definition startEdit (index : nat) : M unit :=
  st <- get ;;
  let s := element (students st) index in
  modify (with_editIndex (Some index)) ;;
  match s with
  | None => lift (Throw TypeError)
  | Some r =>
      modify (with_inputs (form_of r)) ;;
      modify (with_buttons true false false) ;;
      clearErrors
  end.

Definition resetEditState : M unit :=
  modify (with_editIndex None) ;;
  modify (with_buttons false true true) ;;
  modify (fun st => with_inputs (defaults st) st) ;;
  clearErrors.

(** ** CRUD operations *)

(** [a[i] = v]: writing past the end extends the array and leaves holes. *)
Fixpoint array_set (a : list slot) (i : nat) (v : Student) : list slot :=
  match a, i with
  | [], O => [Some v]
  | [], S i' => None :: array_set [] i' v
  | _ :: r, O => Some v :: r
  | x :: r, S i' => x :: array_set r i' v
  end.

(** [a.splice(index, 1)] *)
Definition splice1 (a : list slot) (index : nat) : list slot :=
  firstn index a ++ skipn (S index) a.

Definition addStudent (payload : Student) : M unit :=
  modify (fun st => with_students (students st ++ [Some payload]) st) ;;
  saveStudents ;;
  render.

Definition updateStudent (payload : Student) : M unit :=
  st <- get ;;
  match editIndex st with
  | None => ret tt
  | Some i =>
      modify (fun st => with_students (array_set (students st) i payload) st) ;;
      saveStudents ;;
      render ;;
      resetEditState
  end.

(** [confirmed] is what [confirm] returned. *)
Definition deleteStudent (index : nat) (confirmed : bool) : M unit :=
  if negb confirmed then ret tt
  else
    modify (fun st => with_students (splice1 (students st) index) st) ;;
    saveStudents ;;
    render.

(** ** Event handlers *)

(** The payload both handlers build from the inputs. *)
Definition payload_of (f : Form) : Student :=
  mkStudent (trim (nameInput f)) (trim (studentIdInput f))
    (trim (emailInput f)) (trim (contactInput f)).

(** The form's submit listener. *)
Definition onSubmit : M unit :=
  st <- get ;;
  let payload := payload_of (inputs st) in
  ok <- validateForm payload ;;
  if negb ok then ret tt
  else
    addStudent payload ;;
    modify (fun st => with_inputs (defaults st) st) ;;
    clearErrors.

(** The Update button's click listener. *)
Definition onUpdateClick : M unit :=
  st <- get ;;
  let payload := payload_of (inputs st) in
  ok <- validateForm payload ;;
  if negb ok then ret tt
  else updateStudent payload.

(** The input listeners. *)
Definition onNameInput : M unit :=
  modify (fun st =>
    let f := inputs st in
    with_inputs (mkForm (stripNonLetters (nameInput f)) (studentIdInput f)
                   (emailInput f) (contactInput f)) st).

Definition onStudentIdInput : M unit :=
  modify (fun st =>
    let f := inputs st in
    with_inputs (mkForm (nameInput f) (stripNonDigits (studentIdInput f))
                   (emailInput f) (contactInput f)) st).

Definition onContactInput : M unit :=
  modify (fun st =>
    let f := inputs st in
    with_inputs (mkForm (nameInput f) (studentIdInput f) (emailInput f)
                   (stripNonDigits (contactInput f))) st).

(** ** The page as a transition system *)

(** What the user can do: edit a field (the input listener then runs),
    submit the form, press Update or Cancel, press Edit or Delete in a row
    and answer the confirmation. *)
Inductive event : Type :=
| EditName (v : jsstring)
| EditStudentId (v : jsstring)
| EditEmail (v : jsstring)
| EditContact (v : jsstring)
| SubmitForm
| ClickUpdate
| ClickCancel
| ClickEdit (index : nat)
| ClickDelete (index : nat) (confirmed : bool).

Definition handler (ev : event) : M unit :=
  match ev with
  | EditName v =>
      modify (fun st => let f := inputs st in
        with_inputs (mkForm v (studentIdInput f) (emailInput f) (contactInput f)) st) ;;
      onNameInput
  | EditStudentId v =>
      modify (fun st => let f := inputs st in
        with_inputs (mkForm (nameInput f) v (emailInput f) (contactInput f)) st) ;;
      onStudentIdInput
  | EditEmail v =>
      modify (fun st => let f := inputs st in
        with_inputs (mkForm (nameInput f) (studentIdInput f) v (contactInput f)) st)
  | EditContact v =>
      modify (fun st => let f := inputs st in
        with_inputs (mkForm (nameInput f) (studentIdInput f) (emailInput f) v) st) ;;
      onContactInput
  | SubmitForm => onSubmit
  | ClickUpdate => onUpdateClick
  | ClickCancel => resetEditState
  | ClickEdit index => startEdit index
  | ClickDelete index confirmed => deleteStudent index confirmed
  end.

(** A listener that throws leaves the state as it was at the throw. *)
Definition step (ev : event) (st : State) : State := after (handler ev) st.

(** A button can be pressed when it is shown; Edit and Delete exist for
    the rows of the table. The submit listener has no guard of its own:
    [startEdit] hides the Add button but does not disable it, so the form
    is still submitted from its fields (Enter) during an edit session. *)
Definition enabled (ev : event) (st : State) : bool :=
  match ev with
  | ClickUpdate => negb (updateHidden st)
  | ClickCancel => negb (cancelHidden st)
  | ClickEdit i => existsb (fun r => row_index r =? i) (tbody st)
  | ClickDelete i _ => existsb (fun r => row_index r =? i) (tbody st)
  | _ => true
  end.

Fixpoint run (evs : list event) (st : State) : State :=
  match evs with
  | [] => st
  | ev :: rest => run rest (step ev st)
  end.

(** Every event of the trace is enabled when it happens. *)
Fixpoint feasible (evs : list event) (st : State) : bool :=
  match evs with
  | [] => true
  | ev :: rest => enabled ev st && feasible rest (step ev st)
  end.

(** The script starts with [editIndex] null; the collection is empty when
    nothing valid is stored. *)
Definition fresh (st : State) : Prop :=
  students st = [] /\ editIndex st = None /\ tbody st = [].

(** The identifiers of the records in the array. *)
Fixpoint identifiers (a : list slot) : list jsstring :=
  match a with
  | [] => []
  | Some s :: r => studentId s :: identifiers r
  | None :: r => identifiers r
  end.

(** The page before any record exists: nothing stored, empty form, the
    Update and Cancel buttons hidden (the state [resetEditState] restores;
    the markup itself is not part of the script). *)
Definition page0 : State :=
  mkState [] None None (mkForm [] [] [] []) (mkForm [] [] [] []) noErrors
    false true true [] false.

(** ** Validation as the specification words it

    An ordered list of checks; the first one violated decides the
    outcome and what is reported. *)

Inductive check : Type :=
| Presence
| NameFormat
| IdentifierFormat
| EmailFormat
| ContactFormat
| ContactMinLength
| IdentifierUnique.

Definition check_order : list check :=
  [Presence; NameFormat; IdentifierFormat; EmailFormat; ContactFormat;
   ContactMinLength; IdentifierUnique].

(** Some record other than the one being edited has the identifier. *)
Definition taken (R : list Student) (editTarget : option nat) (id : jsstring) : bool :=
  existsb (fun '(idx, s) => jsstring_eqb (studentId s) id && index_differs idx editTarget)
    (combine (seq 0 (length R)) R).

Definition violated (R : list Student) (editTarget : option nat) (p : Student)
  (c : check) : bool :=
  match c with
  | Presence =>
      isEmpty (name p) || isEmpty (studentId p) || isEmpty (email p) || isEmpty (contact p)
  | NameFormat => negb (isLettersOnly (name p))
  | IdentifierFormat => negb (isDigitsOnly (studentId p))
  | EmailFormat => negb (isValidEmail (email p))
  | ContactFormat => negb (isDigitsOnly (contact p))
  | ContactMinLength => negb (minDigits (contact p) 10)
  | IdentifierUnique => taken R editTarget (studentId p)
  end.

Definition required (field : jsstring) (msg : string) : jsstring :=
  if isEmpty field then str msg else [].

(** What a violated check shows. *)
Definition report (p : Student) (c : check) : Errors :=
  match c with
  | Presence =>
      mkErrors (required (name p) "Name is required.")
        (required (studentId p) "Student ID is required.")
        (required (email p) "Email is required.")
        (required (contact p) "Contact number is required.")
  | NameFormat => mkErrors (str "Only letters and spaces are allowed.") [] [] []
  | IdentifierFormat => mkErrors [] (str "Student ID must contain digits only.") [] []
  | EmailFormat => mkErrors [] [] (str "Please enter a valid email address.") []
  | ContactFormat => mkErrors [] [] [] (str "Contact number must contain digits only.")
  | ContactMinLength => mkErrors [] [] [] (str "Contact number must have at least 10 digits.")
  | IdentifierUnique => mkErrors [] (str "This Student ID already exists.") [] []
  end.

Definition first_violation (R : list Student) (editTarget : option nat) (p : Student)
  : option check :=
  find (violated R editTarget p) check_order.

(** The checks on the fields alone, without the identifier scan. *)
Definition fields_ok (p : Student) : bool :=
  negb (isEmpty (name p) || isEmpty (studentId p) || isEmpty (email p) || isEmpty (contact p))
  && isLettersOnly (name p) && isDigitsOnly (studentId p) && isValidEmail (email p)
  && isDigitsOnly (contact p) && minDigits (contact p) 10.

Definition isSome {A} (o : option A) : bool :=
  match o with Some _ => true | None => false end.

(** ** Sample records and traces *)

Definition ann : Student :=
  mkStudent (str "Ann Lee") (str "1001") (str "a@b.com") (str "5551234567").

Definition bob : Student :=
  mkStudent (str "Bob Ray") (str "1002") (str "b@c.org") (str "5550000000").

Definition fill (s : Student) : list event :=
  [EditName (name s); EditStudentId (studentId s); EditEmail (email s);
   EditContact (contact s)].

(** Ann and Bob are added, an edit session on Ann's row is started, and
    Ann's row is deleted. *)
Definition delete_while_editing : list event :=
  fill ann ++ [SubmitForm] ++ fill bob ++ [SubmitForm]
    ++ [ClickEdit 0; ClickDelete 0 true].

(** Ann is added, an edit session on her row is started (which fills the
    form with her record), and the form is submitted. *)
Definition submit_while_editing : list event :=
  fill ann ++ [SubmitForm; ClickEdit 0; SubmitForm].

(** ** Predicates of the properties *)

(** No two records of the array share an identifier. *)
Definition distinct (a : list slot) : Prop := NoDup (identifiers a).

(** The form is not submitted while an edit session is open. *)
Fixpoint adds_when_idle (evs : list event) (st : State) : bool :=
  match evs with
  | [] => true
  | ev :: rest =>
      match ev with
      | SubmitForm => negb (isSome (editIndex st))
      | _ => true
      end && adds_when_idle rest (step ev st)
  end.

(** The stored item makes [loadStudents] use its fallback: it is missing,
    does not parse, or parses to a falsy value. *)
Definition falls_back (item : option jsstring) : bool :=
  match item with
  | None => true
  | Some text =>
      match JSON_parse text with
      | Throw _ => true
      | Normal v => negb (ToBoolean v)
      end
  end.

(** The claim as worded: the empty array comes back exactly when the item
    is missing, unparsable or falsy. *)
Definition empty_exactly_on_fallback (st : State) : Prop :=
  result loadStudents st = Normal (JArray []) <-> falls_back (storage st) = true.


(** With fuel [n], a successful parse leaves less text than it was given. *)
Definition consumes (n : nat) : Prop :=
  (forall s v r, parse_value n s = Parsed v r -> length r < length s) /\
  (forall s acc v r, parse_elements n s acc = Parsed v r -> length r < length s) /\
  (forall s acc v r, parse_members n s acc = Parsed v r -> length r < length s).

(** Fuel [n] is enough for every text of at most half its length. *)
Definition enough_fuel (n : nat) : Prop :=
  (forall s, 2 * length s + 1 <= n -> parse_value n s <> OutOfFuel) /\
  (forall s acc, 2 * length s + 2 <= n -> parse_elements n s acc <> OutOfFuel) /\
  (forall s acc, 2 * length s + 2 <= n -> parse_members n s acc <> OutOfFuel).

(** * Properties *)

(** ** Strings *)

Lemma jsstring_eqb_eq a b : jsstring_eqb a b = true <-> a = b.
Proof.
  unfold jsstring_eqb. destruct (list_eq_dec N.eq_dec a b); split; congruence.
Qed.

Lemma jsstring_eqb_refl a : jsstring_eqb a a = true.
Proof. now apply jsstring_eqb_eq. Qed.

Lemma jsstring_eqb_neq a b : jsstring_eqb a b = false <-> a <> b.
Proof.
  unfold jsstring_eqb. destruct (list_eq_dec N.eq_dec a b); split; congruence.
Qed.

(** ** Regular expressions *)

Lemma nullable_matches (r : regex) : nullable r = true <-> matches r [].
Proof.
  induction r as [| |p|a IHa b IHb|a IHa b IHb|a IH]; cbn.
  - split; [discriminate | intros H; inversion H].
  - split; [constructor | reflexivity].
  - split; [discriminate | intros H; inversion H].
  - rewrite andb_true_iff, IHa, IHb. split.
    + intros [Ha Hb]. exact (MCat a b [] [] Ha Hb).
    + intros H. inversion H as [| |a' b' s t Ha Hb E1 E2| | | |]. subst.
      apply app_eq_nil in E2. destruct E2; subst. split; assumption.
  - rewrite orb_true_iff, IHa, IHb. split.
    + intros [H | H]; [now apply MAltL | now apply MAltR].
    + intros H. inversion H; subst; tauto.
  - split; [constructor | reflexivity].
Qed.

(** A non-empty match of a star starts with a non-empty match of its body. *)
Lemma star_cons (a : regex) (c : N) (s : jsstring) :
  matches (RStar a) (c :: s) ->
  exists s1 s2, s = s1 ++ s2 /\ matches a (c :: s1) /\ matches (RStar a) s2.
Proof.
  intros H. remember (RStar a) as r eqn:Er. remember (c :: s) as w eqn:Ew.
  revert s Ew.
  induction H as [| | | | | |a' u t Hu _ Ht IHt]; intros x Ew; try discriminate.
  injection Er as ->. destruct u as [|d u].
  - cbn in Ew. apply (IHt eq_refl x Ew).
  - cbn in Ew. injection Ew as -> <-. exists u, t. repeat split; assumption.
Qed.

Lemma deriv_matches (r : regex) (c : N) (s : jsstring) :
  matches (deriv c r) s <-> matches r (c :: s).
Proof.
  revert s. induction r as [| |p|a IHa b IHb|a IHa b IHb|a IH]; intros s; cbn [deriv].
  - split; intros H; inversion H.
  - split; intros H; inversion H.
  - destruct (p c) eqn:Hp; split; intros H.
    + inversion H; subst. now constructor.
    + inversion H; subst. constructor.
    + inversion H.
    + inversion H; subst. congruence.
  - assert (Hcat : matches (RCat (deriv c a) b) s <->
                   exists s1 s2, s = s1 ++ s2 /\ matches a (c :: s1) /\ matches b s2).
    { split.
      - intros H. inversion H as [| |a' b' s1 s2 H1 H2 E1 E2| | | |]. subst.
        exists s1, s2. rewrite <- IHa. auto.
      - intros [s1 [s2 [-> [H1 H2]]]]. apply MCat; [now apply IHa | exact H2]. }
    assert (Hsplit : matches (RCat a b) (c :: s) <->
                     (exists s1 s2, s = s1 ++ s2 /\ matches a (c :: s1) /\ matches b s2)
                     \/ (matches a [] /\ matches b (c :: s))).
    { split.
      - intros H. inversion H as [| |a' b' s1 s2 H1 H2 E1 E2| | | |]. subst.
        destruct s1 as [|d s1].
        + right. cbn in E2. subst. auto.
        + left. cbn in E2. injection E2 as -> <-. exists s1, s2. auto.
      - intros [[s1 [s2 [-> [H1 H2]]]] | [H1 H2]].
        + exact (MCat a b (c :: s1) s2 H1 H2).
        + exact (MCat a b [] (c :: s) H1 H2). }
    rewrite Hsplit. destruct (nullable a) eqn:Hn.
    + split.
      * intros H. inversion H; subst.
        -- left. now apply Hcat.
        -- right. split; [now apply nullable_matches | now apply IHb].
      * intros [H | [_ H]]; [apply MAltL; now apply Hcat | apply MAltR; now apply IHb].
    + rewrite Hcat. split; [tauto|]. intros [H | [H _]]; [exact H|].
      apply nullable_matches in H. congruence.
  - split; intros H; inversion H; subst.
    + apply MAltL. now apply IHa.
    + apply MAltR. now apply IHb.
    + apply MAltL. now apply IHa.
    + apply MAltR. now apply IHb.
  - split.
    + intros H. inversion H as [| |a' b' s1 s2 H1 H2 E1 E2| | | |]. subst.
      apply (MStarApp a (c :: s1) s2); [now apply IH | exact H2].
    + intros H. apply star_cons in H. destruct H as [s1 [s2 [-> [H1 H2]]]].
      apply MCat; [now apply IH | exact H2].
Qed.

(** [regex_test] decides matching. *)
Lemma regex_test_matches (r : regex) (s : jsstring) :
  regex_test r s = true <-> matches r s.
Proof.
  revert r. induction s as [|c s IH]; intros r; cbn [regex_test].
  - apply nullable_matches.
  - rewrite IH. apply deriv_matches.
Qed.

Lemma matches_star_class (p : N -> bool) (s : jsstring) :
  matches (RStar (RClass p)) s <-> forallb p s = true.
Proof.
  split.
  - intros H. remember (RStar (RClass p)) as r eqn:Er.
    induction H as [| | | | | |a u t Hu _ Ht IHt]; try discriminate; [reflexivity|].
    injection Er as ->. inversion Hu; subst. cbn. rewrite H0. now apply IHt.
  - induction s as [|c s IH]; cbn; intros H; [constructor|].
    apply andb_prop in H. destruct H as [Hc Hs].
    apply (MStarApp (RClass p) [c] s); [now constructor | now apply IH].
Qed.

Lemma matches_plus_class (p : N -> bool) (s : jsstring) :
  matches (RPlus (RClass p)) s <-> s <> [] /\ forallb p s = true.
Proof.
  unfold RPlus. split.
  - intros H. inversion H as [| |a b s1 s2 H1 H2 E1 E2| | | |]. subst.
    inversion H1; subst. apply matches_star_class in H2. split; [discriminate|].
    cbn. now rewrite H3, H2.
  - intros [Hne H]. destruct s as [|c s]; [congruence|]. cbn in H.
    apply andb_prop in H. destruct H as [Hc Hs].
    apply (MCat (RClass p) (RStar (RClass p)) [c] s); [now constructor | now apply matches_star_class].
Qed.

(** [isDigitsOnly]: one digit at least and digits only. *)
Lemma isDigitsOnly_iff (s : jsstring) :
  isDigitsOnly s = true <-> s <> [] /\ forallb is_digit s = true.
Proof.
  unfold isDigitsOnly, re_digits. rewrite regex_test_matches. apply matches_plus_class.
Qed.

(** [isLettersOnly]: after trimming, one character at least, letters and
    white space only. *)
Lemma isLettersOnly_iff (s : jsstring) :
  isLettersOnly s = true <->
  trim s <> [] /\ forallb (fun c => is_letter c || is_space c) (trim s) = true.
Proof.
  unfold isLettersOnly, re_letters. rewrite regex_test_matches. apply matches_plus_class.
Qed.

(** [isValidEmail]: after trimming, a local part, one [@], and a domain
    with a dot inside it; no white space and no further [@] anywhere. *)
Lemma isValidEmail_iff (s : jsstring) :
  isValidEmail s = true <->
  exists l d t,
    trim s = l ++ ch "@" :: d ++ ch "." :: t /\
    l <> [] /\ d <> [] /\ t <> [] /\
    forallb not_space_at l = true /\ forallb not_space_at d = true /\
    forallb not_space_at t = true.
Proof.
  unfold isValidEmail, re_email. rewrite regex_test_matches. split.
  - intros H.
    inversion H as [| |a1 b1 l r1 Hl H1 E1 E1'| | | |]; subst.
    inversion H1 as [| |a2 b2 x r2 Hx H2 E2 E2'| | | |]; subst.
    inversion H2 as [| |a3 b3 d r3 Hd H3 E3 E3'| | | |]; subst.
    inversion H3 as [| |a4 b4 y t Hy Ht E4 E4'| | | |]; subst.
    inversion Hx as [|p c Hc| | | | |]; subst. apply N.eqb_eq in Hc. subst c.
    inversion Hy as [|p c Hc| | | | |]; subst. apply N.eqb_eq in Hc. subst c.
    apply matches_plus_class in Hl, Hd, Ht.
    exists l, d, t. cbn [app]. tauto.
  - intros [l [d [t [E [Hl [Hd [Ht [Fl [Fd Ft]]]]]]]]]. rewrite E.
    apply MCat; [now apply matches_plus_class|].
    apply (MCat _ _ [ch "@"]); [constructor; apply N.eqb_refl|].
    apply MCat; [now apply matches_plus_class|].
    apply (MCat _ _ [ch "."]); [constructor; apply N.eqb_refl|].
    now apply matches_plus_class.
Qed.

(** ** Properties of validation *)

Ltac unfold_m :=
  unfold after, result, onSubmit, onUpdateClick, addStudent, updateStudent,
    deleteStudent, resetEditState, startEdit, render, saveStudents, clearErrors,
    setError, when, bind, ret, modify, get, lift in *.

(** [validateForm] as one case analysis: it only ever writes the error
    elements. *)
Lemma validateForm_eq (p : Student) (st : State) :
  validateForm p st =
  if isEmpty (name p) || isEmpty (studentId p) || isEmpty (email p) || isEmpty (contact p)
  then (Normal false, with_errors (report p Presence) st)
  else if negb (isLettersOnly (name p))
  then (Normal false, with_errors (report p NameFormat) st)
  else if negb (isDigitsOnly (studentId p))
  then (Normal false, with_errors (report p IdentifierFormat) st)
  else if negb (isValidEmail (email p))
  then (Normal false, with_errors (report p EmailFormat) st)
  else if negb (isDigitsOnly (contact p))
  then (Normal false, with_errors (report p ContactFormat) st)
  else if negb (minDigits (contact p) 10)
  then (Normal false, with_errors (report p ContactMinLength) st)
  else
    match findIndex (sameIdElsewhere (studentId p) (editIndex st)) (students st) with
    | Normal (Some _) => (Normal false, with_errors (report p IdentifierUnique) st)
    | Normal None => (Normal true, with_errors noErrors st)
    | Throw e => (Throw e, with_errors noErrors st)
    end.
Proof.
  unfold validateForm.
  destruct (isEmpty (name p) || isEmpty (studentId p) || isEmpty (email p)
            || isEmpty (contact p)) eqn:Hp.
  - unfold report, required.
    destruct (isEmpty (name p)), (isEmpty (studentId p)), (isEmpty (email p)),
      (isEmpty (contact p)); reflexivity.
  - unfold_m. cbn [fst snd].
    destruct (negb (isLettersOnly (name p))); [reflexivity|].
    destruct (negb (isDigitsOnly (studentId p))); [reflexivity|].
    destruct (negb (isValidEmail (email p))); [reflexivity|].
    destruct (negb (isDigitsOnly (contact p))); [reflexivity|].
    destruct (negb (minDigits (contact p) 10)); [reflexivity|].
    cbn -[findIndex].
    destruct (findIndex _ _) as [[i|]|e]; reflexivity.
Qed.

(** On an array without holes the scan completes, and finds an index
    exactly when the identifier is taken. *)
Lemma findIndex_from_records (R : list Student) (id : jsstring) (e : option nat) (k : nat) :
  exists r,
    findIndex_from (sameIdElsewhere id e) (map Some R) k = Normal r /\
    isSome r =
      existsb (fun '(idx, s) => jsstring_eqb (studentId s) id && index_differs idx e)
        (combine (seq k (length R)) R).
Proof.
  revert k. induction R as [|s R IH]; intros k.
  - exists None. split; reflexivity.
  - cbn [map findIndex_from sameIdElsewhere length seq combine existsb].
    destruct (jsstring_eqb (studentId s) id && index_differs k e).
    + exists (Some k). split; reflexivity.
    + destruct (IH (S k)) as [r [Hr Hs]]. exists r. split; [exact Hr | exact Hs].
Qed.

Lemma findIndex_records (R : list Student) (id : jsstring) (e : option nat) :
  exists r,
    findIndex (sameIdElsewhere id e) (map Some R) = Normal r /\
    isSome r = taken R e id.
Proof. apply findIndex_from_records. Qed.

(** When the scan ends without a match the array has no hole and no record
    away from the edit target carries the identifier. *)
Lemma findIndex_from_none (a : list slot) (id : jsstring) (e : option nat) (k : nat) :
  findIndex_from (sameIdElsewhere id e) a k = Normal None ->
  (exists R, a = map Some R) /\
  forall j r, nth_error a j = Some (Some r) -> index_differs (k + j) e = true ->
              studentId r <> id.
Proof.
  revert k. induction a as [|x a IH]; intros k H.
  - split; [exists []; reflexivity|]. intros [|j] r Hj; discriminate.
  - cbn [findIndex_from] in H. destruct x as [s|]; [|discriminate].
    cbn [sameIdElsewhere] in H.
    destruct (jsstring_eqb (studentId s) id && index_differs k e) eqn:Hc; [discriminate|].
    destruct (IH _ H) as [[R HR] Hrest]. split.
    + exists (s :: R). cbn. now rewrite HR.
    + intros [|j] r Hj Hd.
      * cbn in Hj. injection Hj as <-. rewrite Nat.add_0_r in Hd.
        rewrite Hd, andb_true_r in Hc. now apply jsstring_eqb_neq.
      * cbn in Hj. apply (Hrest j r Hj). now rewrite Nat.add_succ_r in Hd.
Qed.

(** ** C4: the order of the checks *)

(** C4. For every candidate record, record sequence and edit target,
    [validateForm] behaves as the ordered list of checks presence, name
    format, identifier format, email format, contact format, contact
    minimum length, identifier uniqueness: it accepts when none is
    violated, and otherwise refuses and shows exactly what the first
    violated check reports; for the presence check that is a required
    message for each empty field. *)
Theorem validateForm_first_violation
  (p : Student) (R : list Student) (e : option nat) (st : State) :
  let st0 := with_students (map Some R) (with_editIndex e st) in
  validateForm p st0 =
  match first_violation R e p with
  | None => (Normal true, with_errors noErrors st0)
  | Some c => (Normal false, with_errors (report p c) st0)
  end.
Proof.
  intros st0. rewrite validateForm_eq.
  unfold first_violation, check_order. cbn [find violated].
  destruct (isEmpty (name p) || isEmpty (studentId p) || isEmpty (email p)
            || isEmpty (contact p)); [reflexivity|].
  destruct (negb (isLettersOnly (name p))); [reflexivity|].
  destruct (negb (isDigitsOnly (studentId p))); [reflexivity|].
  destruct (negb (isValidEmail (email p))); [reflexivity|].
  destruct (negb (isDigitsOnly (contact p))); [reflexivity|].
  destruct (negb (minDigits (contact p) 10)); [reflexivity|].
  subst st0. cbn [students editIndex with_students with_editIndex].
  destruct (findIndex_records R (studentId p) e) as [r [Hr Hs]].
  rewrite Hr. destruct (taken R e (studentId p)), r; try discriminate; reflexivity.
Qed.

(** The presence check reports every empty field at once. *)
Example presence_reports_each_empty_field :
  after (validateForm (mkStudent [] (str "1001") [] (str "5551234567"))) page0
  = with_errors (mkErrors (str "Name is required.") [] (str "Email is required.") []) page0.
Proof. reflexivity. Qed.

(** A later check reports one message only, although the contact is too
    short as well. *)
Example later_checks_report_one_field :
  validateForm (mkStudent (str "Ann Lee") (str "10a1") (str "a@b.com") (str "123")) page0
  = (Normal false,
     with_errors (mkErrors [] (str "Student ID must contain digits only.") [] []) page0).
Proof. reflexivity. Qed.

(** ** Validation guards the mutations *)

Lemma validateForm_frame (p : Student) (st : State) :
  exists e, after (validateForm p) st = with_errors e st.
Proof.
  unfold after. rewrite validateForm_eq.
  repeat match goal with
         | |- context [if ?b then _ else _] => destruct b
         end; try (eexists; reflexivity).
  destruct (findIndex _ _) as [[i|]|x]; eexists; reflexivity.
Qed.

(** C7. When validation of the candidate does not succeed, the submit
    handler and the Update handler leave the record array, the persisted
    item and the edit target exactly as they were. *)
Theorem refused_candidate_changes_nothing (st : State) :
  result (validateForm (payload_of (inputs st))) st <> Normal true ->
  (students (after onSubmit st) = students st /\
   storage (after onSubmit st) = storage st /\
   editIndex (after onSubmit st) = editIndex st) /\
  (students (after onUpdateClick st) = students st /\
   storage (after onUpdateClick st) = storage st /\
   editIndex (after onUpdateClick st) = editIndex st).
Proof.
  intros H.
  destruct (validateForm_frame (payload_of (inputs st)) st) as [e He].
  unfold after, result, onSubmit, onUpdateClick, bind, get in *.
  destruct (validateForm (payload_of (inputs st)) st) as [[[|]|x] st'] eqn:Hv;
    cbn [fst snd] in *; try congruence; subst st'; cbn; auto.
Qed.

(** Scenario 2 of the specification: a second record with identifier 1001
    is refused and the collection keeps its one entry. *)
Lemma refused_candidate_changes_nothing_witness :
  let ann := mkStudent (str "Ann Lee") (str "1001") (str "a@b.com") (str "5551234567") in
  let st := with_inputs (mkForm (str "Bob") (str "1001") (str "b@c.org") (str "5550000000"))
              (with_students [Some ann] page0) in
  students (after onSubmit st) = [Some ann] /\ storage (after onSubmit st) = None.
Proof.
  intros ann st.
  destruct (refused_candidate_changes_nothing st) as [[H1 [H2 _]] _].
  - vm_compute. discriminate.
  - split; [exact H1 | exact H2].
Defined.

(** ** C8: Update without an edit session *)

(** C8. With no edit session ([editIndex] null), [updateStudent] returns
    at once and changes nothing, and the Update handler leaves the record
    array and the persisted item unchanged whatever the candidate is. *)
Theorem update_without_session_is_noop (st : State) :
  editIndex st = None ->
  (forall payload, updateStudent payload st = (Normal tt, st)) /\
  students (after onUpdateClick st) = students st /\
  storage (after onUpdateClick st) = storage st /\
  editIndex (after onUpdateClick st) = None.
Proof.
  intros H. split.
  - intros payload. unfold updateStudent, bind, get. now rewrite H.
  - destruct (validateForm_frame (payload_of (inputs st)) st) as [e He].
    unfold after, onUpdateClick, updateStudent, bind, get, ret in *.
    destruct (validateForm (payload_of (inputs st)) st) as [[[|]|x] st'] eqn:Hv;
      cbn [fst snd] in *; subst st'; cbn; rewrite ?H; cbn; auto.
Qed.

Lemma update_without_session_is_noop_witness :
  let ann := mkStudent (str "Ann Lee") (str "1001") (str "a@b.com") (str "5551234567") in
  let st := with_inputs (mkForm (str "Bob") (str "1002") (str "b@c.org") (str "5550000000"))
              (with_students [Some ann] page0) in
  students (after onUpdateClick st) = [Some ann] /\ storage (after onUpdateClick st) = None.
Proof.
  intros ann st.
  destruct (update_without_session_is_noop st) as [_ [H1 [H2 _]]].
  - reflexivity.
  - split; [exact H1 | exact H2].
Defined.

(** ** C6: delete *)

Lemma splice1_cons (x : slot) (a : list slot) (i : nat) :
  splice1 (x :: a) (S i) = x :: splice1 a i.
Proof. reflexivity. Qed.

Lemma splice1_length (a : list slot) (i : nat) :
  i < length a -> length (splice1 a i) = length a - 1.
Proof.
  intros H. unfold splice1.
  rewrite length_app, length_firstn, length_skipn. lia.
Qed.

Lemma splice1_nth_before (a : list slot) (i j : nat) :
  j < i -> nth_error (splice1 a i) j = nth_error a j.
Proof.
  revert i j. induction a as [|x a IH]; intros i j H.
  - unfold splice1. rewrite firstn_nil, skipn_nil. reflexivity.
  - destruct i as [|i]; [lia|]. rewrite splice1_cons.
    destruct j as [|j]; [reflexivity|]. cbn. apply IH. lia.
Qed.

Lemma splice1_nth_after (a : list slot) (i j : nat) :
  i <= j -> nth_error (splice1 a i) j = nth_error a (S j).
Proof.
  revert i j. induction a as [|x a IH]; intros i j H.
  - unfold splice1. rewrite firstn_nil, skipn_nil. now destruct j.
  - destruct i as [|i]; [reflexivity|]. rewrite splice1_cons.
    destruct j as [|j]; [lia|]. cbn [nth_error]. apply IH. lia.
Qed.

Lemma deleteStudent_eq (i : nat) (st : State) :
  deleteStudent i true st =
  (Normal tt,
   let a := splice1 (students st) i in
   with_table (render_rows a 0) (6 <? length (render_rows a 0))
     (with_storage (Some (JSON_stringify a)) (with_students a st))).
Proof. reflexivity. Qed.

(** C6. A confirmed delete at a valid position [i] of a collection of
    length [n] completes and leaves a collection of length [n - 1]: the
    records before [i] stay where they are, each record after [i] moves
    down by one, and the persisted item is the serialization of the
    result. *)
Theorem delete_removes_one (st : State) (i : nat) :
  i < length (students st) ->
  let st' := after (deleteStudent i true) st in
  result (deleteStudent i true) st = Normal tt /\
  students st' = firstn i (students st) ++ skipn (S i) (students st) /\
  length (students st') = length (students st) - 1 /\
  (forall j, j < i -> nth_error (students st') j = nth_error (students st) j) /\
  (forall j, i <= j -> nth_error (students st') j = nth_error (students st) (S j)) /\
  storage st' = Some (JSON_stringify (students st')).
Proof.
  intros H st'. subst st'. unfold after, result. rewrite deleteStudent_eq.
  cbn [fst snd students storage with_table with_storage with_students].
  repeat split.
  - now apply splice1_length.
  - intros j Hj. now apply splice1_nth_before.
  - intros j Hj. now apply splice1_nth_after.
Qed.

(** Ann is deleted from a collection of two; Bob remains, at position 0. *)
Lemma delete_removes_one_witness :
  let st := with_students [Some ann; Some bob] page0 in
  students (after (deleteStudent 0 true) st) = [Some bob] /\
  storage (after (deleteStudent 0 true) st) = Some (JSON_stringify [Some bob]).
Proof.
  intros st.
  destruct (delete_removes_one st 0) as [_ [H1 [_ [_ [_ H2]]]]].
  - cbn. lia.
  - split; [exact H1 | rewrite H2, H1; reflexivity].
Defined.

(** A delete the user does not confirm changes nothing. *)
Lemma delete_unconfirmed (st : State) (i : nat) :
  deleteStudent i false st = (Normal tt, st).
Proof. reflexivity. Qed.

(** ** C5: committing an edit *)

Lemma validateForm_fields_ok (p : Student) (st : State) :
  fields_ok p = true ->
  validateForm p st =
  match findIndex (sameIdElsewhere (studentId p) (editIndex st)) (students st) with
  | Normal (Some _) => (Normal false, with_errors (report p IdentifierUnique) st)
  | Normal None => (Normal true, with_errors noErrors st)
  | Throw e => (Throw e, with_errors noErrors st)
  end.
Proof.
  unfold fields_ok. intros H.
  repeat (apply andb_prop in H; destruct H as [H ?]).
  apply negb_true_iff in H.
  rewrite validateForm_eq, H.
  repeat match goal with
         | Hb : ?b = true |- context [negb ?b] => rewrite Hb
         end.
  reflexivity.
Qed.

Lemma validateForm_records (p : Student) (R : list Student) (st : State) :
  fields_ok p = true ->
  students st = map Some R ->
  validateForm p st =
  if taken R (editIndex st) (studentId p)
  then (Normal false, with_errors (report p IdentifierUnique) st)
  else (Normal true, with_errors noErrors st).
Proof.
  intros Hf HR. rewrite (validateForm_fields_ok p st Hf), HR.
  destruct (findIndex_records R (studentId p) (editIndex st)) as [r [Hr Hs]].
  rewrite Hr, <- Hs. now destruct r.
Qed.

Lemma in_combine_seq (R : list Student) (k idx : nat) (s : Student) :
  In (idx, s) (combine (seq k (length R)) R) <->
  k <= idx /\ nth_error R (idx - k) = Some s.
Proof.
  revert k. induction R as [|x R IH]; intros k; cbn [length seq combine In].
  - split; [tauto|]. intros [_ H]. now destruct (idx - k).
  - rewrite IH. split.
    + intros [H | [Hk H]].
      * injection H as <- <-. rewrite Nat.sub_diag. split; [lia | reflexivity].
      * split; [lia|]. replace (idx - k) with (S (idx - S k)) by lia. exact H.
    + intros [Hk H]. destruct (idx - k) as [|d] eqn:Hd.
      * left. cbn in H. injection H as <-. f_equal. lia.
      * right. split; [lia|]. cbn in H. replace (idx - S k) with d by lia. exact H.
Qed.

Lemma taken_true_iff (R : list Student) (e : option nat) (id : jsstring) :
  taken R e id = true <->
  exists j s, nth_error R j = Some s /\ studentId s = id /\ index_differs j e = true.
Proof.
  unfold taken. rewrite existsb_exists. split.
  - intros [[idx s] [Hin Hc]]. apply in_combine_seq in Hin. destruct Hin as [_ Hn].
    rewrite Nat.sub_0_r in Hn. apply andb_prop in Hc. destruct Hc as [Hc1 Hc2].
    exists idx, s. repeat split; auto. now apply jsstring_eqb_eq.
  - intros [j [s [Hn [Hid Hd]]]]. exists (j, s). split.
    + apply in_combine_seq. rewrite Nat.sub_0_r. split; [lia | exact Hn].
    + rewrite Hd, andb_true_r. now apply jsstring_eqb_eq.
Qed.

Lemma index_differs_some (j i : nat) : index_differs j (Some i) = true <-> j <> i.
Proof.
  cbn. rewrite negb_true_iff, Nat.eqb_neq. tauto.
Qed.

(** With pairwise distinct identifiers, the identifier of the record at
    [i] is not taken when [i] is left out of the scan. *)
Lemma own_identifier_not_taken (R : list Student) (i : nat) (r : Student) :
  NoDup (map studentId R) ->
  nth_error R i = Some r ->
  taken R (Some i) (studentId r) = false.
Proof.
  intros Hnd Hi. apply not_true_is_false. intros Ht.
  apply taken_true_iff in Ht. destruct Ht as [j [s [Hj [Hid Hd]]]].
  apply index_differs_some in Hd. apply Hd.
  rewrite NoDup_nth_error in Hnd. apply Hnd.
  - rewrite length_map. apply nth_error_Some. congruence.
  - rewrite !nth_error_map, Hj, Hi. cbn. now rewrite Hid.
Qed.

Lemma array_set_nth_same (a : list slot) (i : nat) (v : Student) :
  nth_error (array_set a i v) i = Some (Some v).
Proof.
  revert a. induction i as [|i IH]; intros [|x a]; cbn; auto.
Qed.

Lemma array_set_nth_other (a : list slot) (i j : nat) (v : Student) :
  j <> i -> j < length a -> nth_error (array_set a i v) j = nth_error a j.
Proof.
  revert a j. induction i as [|i IH]; intros [|x a] [|j] Hne Hlt;
    cbn in *; try lia; auto.
  apply IH; lia.
Qed.

Lemma array_set_length (a : list slot) (i : nat) (v : Student) :
  i < length a -> length (array_set a i v) = length a.
Proof.
  revert a. induction i as [|i IH]; intros [|x a] H; cbn in *; try lia; auto.
  rewrite IH; lia.
Qed.

Lemma updateStudent_eq (payload : Student) (i : nat) (st : State) :
  editIndex st = Some i ->
  updateStudent payload st =
  (Normal tt,
   let a := array_set (students st) i payload in
   with_errors noErrors
     (with_inputs (defaults st)
        (with_buttons false true true
           (with_editIndex None
              (with_table (render_rows a 0) (6 <? length (render_rows a 0))
                 (with_storage (Some (JSON_stringify a)) (with_students a st))))))).
Proof.
  intros H. unfold updateStudent, bind, get. rewrite H. reflexivity.
Qed.

(** C5. In an edit session on the record at position [i] of a collection
    of records with pairwise distinct identifiers, a candidate that passes
    the field checks and keeps that record's identifier is committed: the
    record at [i] is replaced, the result is persisted and the session
    ends. A candidate that passes the field checks and carries the
    identifier of a record at another position is refused with the
    duplicate-identifier message, and nothing else changes. *)
Theorem commit_edit_identifier_rule
  (st : State) (R : list Student) (i : nat) (r : Student) :
  let p := payload_of (inputs st) in
  students st = map Some R ->
  editIndex st = Some i ->
  nth_error R i = Some r ->
  fields_ok p = true ->
  (NoDup (map studentId R) -> studentId p = studentId r ->
   let st' := after onUpdateClick st in
   result onUpdateClick st = Normal tt /\
   nth_error (students st') i = Some (Some p) /\
   length (students st') = length R /\
   (forall j, j <> i -> nth_error (students st') j = nth_error (students st) j) /\
   storage st' = Some (JSON_stringify (students st')) /\
   editIndex st' = None)
  /\
  (forall j r', j <> i -> nth_error R j = Some r' -> studentId p = studentId r' ->
   onUpdateClick st = (Normal tt, with_errors (report p IdentifierUnique) st)).
Proof.
  intros p HR He Hi Hf. split.
  - intros Hnd Hid st'. subst st'.
    assert (Hv : validateForm p st = (Normal true, with_errors noErrors st)).
    { rewrite (validateForm_records p R st Hf HR), He, Hid.
      now rewrite (own_identifier_not_taken R i r Hnd Hi). }
    assert (Hlt : i < length (students st)).
    { rewrite HR, length_map. apply nth_error_Some. congruence. }
    unfold after, result, onUpdateClick, bind, get. fold p. rewrite Hv.
    cbn [negb]. rewrite (updateStudent_eq p i) by exact He.
    cbn [fst snd students storage editIndex with_errors with_inputs with_buttons
         with_editIndex with_table with_storage with_students].
    repeat split.
    + apply array_set_nth_same.
    + rewrite array_set_length by exact Hlt. now rewrite HR, length_map.
    + intros j Hj. destruct (Nat.lt_ge_cases j (length (students st))) as [Hl | Hl].
      * now apply array_set_nth_other.
      * rewrite (proj2 (nth_error_None (students st) j)) by exact Hl.
        apply nth_error_None. rewrite array_set_length; assumption.
  - intros j r' Hj Hn Hid.
    assert (Ht : taken R (Some i) (studentId p) = true).
    { apply taken_true_iff. exists j, r'. repeat split; auto.
      now apply index_differs_some. }
    unfold onUpdateClick, bind, get. fold p.
    rewrite (validateForm_records p R st Hf HR), He, Ht. reflexivity.
Qed.

(** Scenario 4 of the specification and its counterpart: in a session on
    Ann's record, her own identifier is accepted and Bob's is refused. *)
Lemma commit_edit_identifier_rule_witness :
  let editing := with_editIndex (Some 0) (with_students [Some ann; Some bob] page0) in
  let same := with_inputs (mkForm (str "Ann B Lee") (str "1001") (str "a@b.com")
                             (str "5551234567")) editing in
  let other := with_inputs (mkForm (str "Ann Lee") (str "1002") (str "a@b.com")
                              (str "5551234567")) editing in
  (result onUpdateClick same = Normal tt /\
   nth_error (students (after onUpdateClick same)) 0
   = Some (Some (payload_of (inputs same))) /\
   editIndex (after onUpdateClick same) = None)
  /\
  onUpdateClick other
  = (Normal tt,
     with_errors (mkErrors [] (str "This Student ID already exists.") [] []) other).
Proof.
  intros editing same other. split.
  - destruct (commit_edit_identifier_rule same [ann; bob] 0 ann
                eq_refl eq_refl eq_refl eq_refl) as [H _].
    assert (Hnd : NoDup (map studentId [ann; bob])).
    { repeat constructor; cbn; intuition discriminate. }
    destruct (H Hnd eq_refl) as [H1 [H2 [_ [_ [_ H3]]]]].
    repeat split; assumption.
  - destruct (commit_edit_identifier_rule other [ann; bob] 0 ann
                eq_refl eq_refl eq_refl eq_refl) as [_ H].
    exact (H 1 bob (Nat.neq_succ_0 0) eq_refl eq_refl).
Defined.

(** ** Scenarios of the specification *)

(** Scenario 1 of the specification: Ann is added to the empty page; the
    collection has one entry and the stored item is its serialization. *)
Example add_first_record :
  let st := run (fill ann ++ [SubmitForm]) page0 in
  students st = [Some ann] /\ storage st = Some (JSON_stringify [Some ann]) /\
  result loadStudents st = Normal (students_value [ann]).
Proof. vm_compute. repeat split. Qed.

(** Scenario 3 of the specification: in a session on Ann's record a
    contact of three digits is refused and the record stays as it was. *)
Example short_contact_refused :
  let st := run (fill ann ++ [SubmitForm; ClickEdit 0; EditContact (str "123"); ClickUpdate])
              page0 in
  students st = [Some ann] /\ editIndex st = Some 0 /\
  errors st = mkErrors [] [] [] (str "Contact number must have at least 10 digits.").
Proof. vm_compute. repeat split. Qed.

(** ** C9: delete during an edit session *)

(** [deleteStudent] never touches [editIndex]. *)
Lemma deleteStudent_keeps_editIndex (i : nat) (confirmed : bool) (st : State) :
  editIndex (after (deleteStudent i confirmed) st) = editIndex st.
Proof. destruct confirmed; reflexivity. Qed.

(** C9. The code does not end the edit session when the edited record is
    deleted: after deleting row 0 during a session on row 0 the edit
    target is still 0, Update is still offered, and pressing it writes
    the deleted record's fields over the record that moved into
    position 0. *)
Theorem delete_leaves_stale_edit_target :
  let st := run delete_while_editing page0 in
  feasible (delete_while_editing ++ [ClickUpdate]) page0 = true /\
  students st = [Some bob] /\
  editIndex st = Some 0 /\
  students (step ClickUpdate st) = [Some ann].
Proof. vm_compute. repeat split. Qed.

(** ** C1: distinct identifiers *)

(** C1. The code does not keep identifiers distinct: the submit handler
    validates with the edit target left out of the scan, so submitting the
    form during an edit session on Ann's row inserts a second record with
    her identifier. *)
Theorem submit_while_editing_duplicates :
  let st := run submit_while_editing page0 in
  feasible submit_while_editing page0 = true /\
  students st = [Some ann; Some ann] /\
  ~ NoDup (identifiers (students st)).
Proof.
  cbv zeta. split; [vm_compute; reflexivity|]. split; [vm_compute; reflexivity|].
  replace (identifiers (students (run submit_while_editing page0)))
    with [str "1001"; str "1001"] by (vm_compute; reflexivity).
  intros H. inversion H as [|x l Hin _]. apply Hin. now left.
Qed.

(** *** What does hold: the invariant apart from that path *)

Lemma identifiers_app (a b : list slot) :
  identifiers (a ++ b) = identifiers a ++ identifiers b.
Proof.
  induction a as [|[s|] a IH]; cbn; [reflexivity | now rewrite IH | exact IH].
Qed.

Lemma in_identifiers (a : list slot) (id : jsstring) :
  In id (identifiers a) <->
  exists j r, nth_error a j = Some (Some r) /\ studentId r = id.
Proof.
  induction a as [|[s|] a IH]; cbn [identifiers In].
  - split; [tauto|]. intros [[|j] [r [H _]]]; discriminate.
  - rewrite IH. split.
    + intros [H | [j [r [Hj Hr]]]].
      * exists 0, s. split; [reflexivity | exact H].
      * exists (S j), r. split; assumption.
    + intros [[|j] [r [Hj Hr]]].
      * left. cbn in Hj. congruence.
      * right. exists j, r. split; assumption.
  - rewrite IH. split.
    + intros [j [r [Hj Hr]]]. exists (S j), r. split; assumption.
    + intros [[|j] [r [Hj Hr]]]; [discriminate|]. exists j, r. split; assumption.
Qed.

Lemma in_identifiers_array_set (a : list slot) (i : nat) (v : Student) (id : jsstring) :
  In id (identifiers (array_set a i v)) -> id = studentId v \/ In id (identifiers a).
Proof.
  revert a. induction i as [|i IH]; intros [|[s|] a]; cbn; intros H.
  - destruct H as [H | []]. now left.
  - destruct H as [H | H]; [left; congruence | tauto].
  - destruct H as [H | H]; [left; congruence | tauto].
  - destruct (IH [] H) as [H1 | []]. now left.
  - destruct H as [H | H]; [tauto|]. destruct (IH a H); tauto.
  - apply (IH a H).
Qed.

Lemma distinct_array_set (a : list slot) (i : nat) (v : Student) :
  distinct a ->
  (forall j r, nth_error a j = Some (Some r) -> j <> i -> studentId r <> studentId v) ->
  distinct (array_set a i v).
Proof.
  unfold distinct. revert a. induction i as [|i IH]; intros [|x a] Hd Hne.
  - cbn. repeat constructor. tauto.
  - cbn [array_set identifiers]. constructor.
    + intros Hin. apply in_identifiers in Hin. destruct Hin as [j [r [Hj Hr]]].
      apply (Hne (S j) r); [exact Hj | lia | exact Hr].
    + destruct x; cbn in Hd; [now inversion Hd | exact Hd].
  - cbn [array_set identifiers]. apply (IH []); [constructor|].
    intros [|j] r Hj; discriminate.
  - assert (Hrec : NoDup (identifiers (array_set a i v))).
    { apply IH.
      - destruct x; cbn in Hd; [now inversion Hd | exact Hd].
      - intros j r Hj Hji. apply (Hne (S j) r); [exact Hj | lia]. }
    destruct x as [s|]; cbn [array_set identifiers]; [|exact Hrec].
    constructor; [|exact Hrec]. intros Hin.
    apply in_identifiers_array_set in Hin. destruct Hin as [Hin | Hin].
    + apply (Hne 0 s); [reflexivity | lia | exact Hin].
    + cbn in Hd. inversion Hd. contradiction.
Qed.

Lemma in_identifiers_splice1 (a : list slot) (i : nat) (id : jsstring) :
  In id (identifiers (splice1 a i)) -> In id (identifiers a).
Proof.
  revert i. induction a as [|x a IH]; intros i H.
  - unfold splice1 in H. now rewrite firstn_nil, skipn_nil in H.
  - destruct i as [|i].
    + cbn in H. destruct x; cbn; tauto.
    + rewrite splice1_cons in H. destruct x as [s|]; cbn in *.
      * destruct H as [H | H]; [tauto | right; eapply IH; eassumption].
      * eapply IH; eassumption.
Qed.

Lemma distinct_splice1 (a : list slot) (i : nat) :
  distinct a -> distinct (splice1 a i).
Proof.
  unfold distinct. revert i. induction a as [|x a IH]; intros i Hd.
  - unfold splice1. rewrite firstn_nil, skipn_nil. constructor.
  - assert (Ha : NoDup (identifiers a)).
    { destruct x; cbn in Hd; [now inversion Hd | exact Hd]. }
    destruct i as [|i]; [exact Ha|].
    rewrite splice1_cons. destruct x as [s|]; cbn [identifiers]; [|now apply IH].
    constructor; [|now apply IH]. intros Hin.
    apply in_identifiers_splice1 in Hin. cbn in Hd. inversion Hd. contradiction.
Qed.

Lemma onSubmit_eq (st : State) :
  onSubmit st =
  let p := payload_of (inputs st) in
  match validateForm p st with
  | (Normal true, st1) =>
      (Normal tt,
       let a := students st1 ++ [Some p] in
       with_errors noErrors
         (with_inputs (defaults st1)
            (with_table (render_rows a 0) (6 <? length (render_rows a 0))
               (with_storage (Some (JSON_stringify a)) (with_students a st1)))))
  | (Normal false, st1) => (Normal tt, st1)
  | (Throw e, st1) => (Throw e, st1)
  end.
Proof.
  unfold onSubmit, bind, get. cbv zeta.
  destruct (validateForm (payload_of (inputs st)) st) as [[[|]|e] st1]; reflexivity.
Qed.

Lemma onUpdateClick_eq (st : State) :
  onUpdateClick st =
  let p := payload_of (inputs st) in
  match validateForm p st with
  | (Normal true, st1) => updateStudent p st1
  | (Normal false, st1) => (Normal tt, st1)
  | (Throw e, st1) => (Throw e, st1)
  end.
Proof.
  unfold onUpdateClick, bind, get. cbv zeta.
  destruct (validateForm (payload_of (inputs st)) st) as [[[|]|e] st1]; reflexivity.
Qed.

(** Accepted candidates: the scan ended without a match. *)
Lemma validateForm_accepts (p : Student) (st st1 : State) :
  validateForm p st = (Normal true, st1) ->
  st1 = with_errors noErrors st /\
  findIndex (sameIdElsewhere (studentId p) (editIndex st)) (students st) = Normal None.
Proof.
  rewrite validateForm_eq.
  repeat match goal with
         | |- context [if ?b then _ else _] => destruct b; [discriminate|]
         end.
  destruct (findIndex _ _) as [[i|]|e]; try discriminate.
  intros H. injection H as <-. split; reflexivity.
Qed.

Lemma step_distinct (ev : event) (st : State) :
  match ev with SubmitForm => editIndex st = None | _ => True end ->
  distinct (students st) -> distinct (students (step ev st)).
Proof.
  intros Hidle Hd. unfold step, after. destruct ev; cbn [handler]; try exact Hd.
  - (* submit *)
    rewrite onSubmit_eq. cbv zeta.
    destruct (validateForm_frame (payload_of (inputs st)) st) as [e He].
    unfold after in He.
    destruct (validateForm (payload_of (inputs st)) st) as [[[|]|x] st1] eqn:Hv;
      cbn [snd] in He; try (subst st1; exact Hd).
    apply validateForm_accepts in Hv. destruct Hv as [-> Hf].
    cbn [snd students with_errors with_inputs with_table with_storage with_students].
    unfold distinct. rewrite identifiers_app. cbn [identifiers].
    apply NoDup_app; [exact Hd | repeat constructor; tauto |].
    intros id Hin [Heq | []]. subst id.
    apply in_identifiers in Hin. destruct Hin as [j [r [Hj Hr]]].
    apply findIndex_from_none in Hf. destruct Hf as [_ Hf].
    apply (Hf j r Hj); [now rewrite Hidle | exact Hr].
  - (* update *)
    rewrite onUpdateClick_eq. cbv zeta.
    destruct (validateForm_frame (payload_of (inputs st)) st) as [e He].
    unfold after in He.
    destruct (validateForm (payload_of (inputs st)) st) as [[[|]|x] st1] eqn:Hv;
      cbn [snd] in He; try (subst st1; exact Hd).
    apply validateForm_accepts in Hv. destruct Hv as [-> Hf].
    destruct (editIndex st) as [i|] eqn:Hi.
    + rewrite (updateStudent_eq _ i) by exact Hi.
      cbn [snd students with_errors with_inputs with_buttons with_editIndex
           with_table with_storage with_students].
      apply distinct_array_set; [exact Hd|].
      apply findIndex_from_none in Hf. destruct Hf as [_ Hf].
      intros j r Hj Hne. apply (Hf j r Hj). now apply index_differs_some.
    + unfold updateStudent, bind, get. cbn [editIndex with_errors]. rewrite Hi.
      exact Hd.
  - (* edit *)
    unfold startEdit, bind, get, modify, lift, clearErrors.
    destruct (element (students st) index); exact Hd.
  - (* delete *)
    destruct confirmed; [|exact Hd].
    rewrite deleteStudent_eq. cbn. now apply distinct_splice1.
Qed.

(** Along every trace in which the form is submitted only while no edit
    session is open, the identifiers stay pairwise distinct. *)
Lemma distinct_when_adds_are_idle (evs : list event) (st : State) :
  distinct (students st) ->
  adds_when_idle evs st = true ->
  distinct (students (run evs st)).
Proof.
  revert st. induction evs as [|ev evs IH]; intros st Hd Hi; [exact Hd|].
  cbn [adds_when_idle] in Hi. apply andb_prop in Hi. destruct Hi as [Hev Hi].
  cbn [run]. apply IH; [|exact Hi]. apply step_distinct; [|exact Hd].
  destruct ev; try exact I. now destruct (editIndex st).
Qed.

(** Starting from an empty collection, in particular. *)
Lemma distinct_from_fresh (evs : list event) (st : State) :
  fresh st ->
  adds_when_idle evs st = true ->
  distinct (students (run evs st)).
Proof.
  intros [H _]. apply distinct_when_adds_are_idle.
  unfold distinct. rewrite H. constructor.
Qed.

(** ** Loading *)

Lemma parse_null : JSON_parse (str "null") = Normal JNull.
Proof. reflexivity. Qed.

(** [loadStudents] never throws and does not change the state. *)
Lemma loadStudents_eq (st : State) :
  loadStudents st =
  (Normal match JSON_parse (item_text (storage st)) with
          | Normal v => js_or v (JArray [])
          | Throw _ => JArray []
          end, st).
Proof.
  unfold loadStudents, try_catch, bind, get, lift, ret.
  destruct (JSON_parse (item_text (storage st))); reflexivity.
Qed.



(** A truncated item is unparsable too. *)
Example load_truncated :
  result loadStudents (with_storage (Some (str "[{'name':")) page0) = Normal (JArray []).
Proof. reflexivity. Qed.

(** The falsy values. *)
Lemma falsy_values (v : json) :
  ToBoolean v = false <->
  v = JNull \/ v = JBool false \/
  (exists neg m e, v = JNumber neg m e /\ rounds_to_zero m e = true) \/
  v = JString [].
Proof.
  split.
  - destruct v as [|[|]|neg m e|[|c s]| |]; cbn; intros H; try discriminate; auto.
    right. right. left. exists neg, m, e. split; [reflexivity|].
    now apply negb_false_iff.
  - intros [-> | [-> | [[neg [m [e [-> H]]]] | ->]]]; cbn; auto.
    now rewrite H.
Qed.

(** C10, as stated, fails: the stored text of an empty array parses to a
    truthy value and the empty array comes back all the same. *)
Lemma load_empty_array_text :
  ~ empty_exactly_on_fallback (with_storage (Some (str "[]")) page0).
Proof.
  unfold empty_exactly_on_fallback. intros [H _].
  specialize (H eq_refl). vm_compute in H. discriminate.
Qed.

(** C10, amended. [loadStudents] returns the empty array when the item is
    missing, does not parse, or parses to a falsy value (null, false, a
    number that is zero, the empty string); when the text parses to a
    truthy value it returns that value unchanged, whatever its shape. So
    the empty array comes back exactly on the fallback or when the parsed
    value is itself the empty array. *)
Theorem load_fallback_or_parsed (st : State) :
  (falls_back (storage st) = true -> loadStudents st = (Normal (JArray []), st)) /\
  (forall text v, storage st = Some text -> JSON_parse text = Normal v ->
                  ToBoolean v = true -> loadStudents st = (Normal v, st)) /\
  (result loadStudents st = Normal (JArray []) <->
   falls_back (storage st) = true \/
   exists text, storage st = Some text /\ JSON_parse text = Normal (JArray [])).
Proof.
  unfold result. rewrite loadStudents_eq. unfold falls_back, js_or. cbn [fst].
  split; [|split; [|split]].
  - destruct (storage st) as [text|]; cbn [item_text].
    + destruct (JSON_parse text) as [v|e]; [|reflexivity].
      intros H. apply negb_true_iff in H. now rewrite H.
    + rewrite parse_null. reflexivity.
  - intros text v Hs Hp Hb. rewrite Hs. cbn [item_text]. now rewrite Hp, Hb.
  - intros H. injection H as H.
    destruct (storage st) as [text|]; [|now left]. cbn [item_text] in H.
    destruct (JSON_parse text) as [v|e] eqn:Hp; [|now left].
    destruct (ToBoolean v); [|now left].
    right. exists text. split; congruence.
  - intros [H | [text [Hs Hp]]].
    + destruct (storage st) as [text|]; cbn [item_text].
      * destruct (JSON_parse text) as [v|e]; [|reflexivity].
        apply negb_true_iff in H. now rewrite H.
      * rewrite parse_null. reflexivity.
    + rewrite Hs. cbn [item_text]. rewrite Hp. reflexivity.
Qed.

Lemma load_fallback_or_parsed_witness :
  let number := with_storage (Some (str "42")) page0 in
  let zero := with_storage (Some (str "0.0")) page0 in
  loadStudents number = (Normal (JNumber false 42 0), number) /\
  loadStudents zero = (Normal (JArray []), zero).
Proof.
  intros number zero. split.
  - destruct (load_fallback_or_parsed number) as [_ [H _]].
    apply (H (str "42")); reflexivity.
  - destruct (load_fallback_or_parsed zero) as [H _].
    apply H. reflexivity.
Defined.

(** An object is truthy and comes back as parsed. *)
Example load_object :
  result loadStudents (with_storage (Some (str "{}")) page0) = Normal (JObject []).
Proof. reflexivity. Qed.

(** ** C2: save, then load *)

(** *** Escapes *)


















Lemma parse_elements_S (f : nat) (s : jsstring) (acc : list json) :
  parse_elements (S f) s acc =
  match parse_value f s with
  | Parsed v r =>
      match skip_ws r with
      | [] => Malformed
      | c :: r1 =>
          if (c =? ch ",")%N then parse_elements f r1 (acc ++ [v])
          else if (c =? ch "]")%N then Parsed (JArray (acc ++ [v])) r1
          else Malformed
      end
  | Malformed => Malformed
  | OutOfFuel => OutOfFuel
  end.
Proof. reflexivity. Qed.









(** Scenario 5 of the specification: deleting the only record leaves the
    text of the empty array in the store, which loads as the empty array. *)
Example delete_last_record :
  let st := after (deleteStudent 0 true) (with_students [Some ann] page0) in
  students st = [] /\ storage st = Some (str "[]") /\
  result loadStudents st = Normal (JArray []).
Proof. repeat split. Qed.

(** A hole is written as [null]; a control character, a quote and a lone
    surrogate are escaped and read back. *)
Example stringify_hole :
  JSON_stringify [None] = str "[null]".
Proof. reflexivity. Qed.

Example quote_escapes :
  parse_chars (quote_chars [10; 34; 55357; 65]%N ++ [quote]) = Some ([10; 34; 55357; 65]%N, []).
Proof. reflexivity. Qed.

(** ** [JSON.parse] has fuel enough *)

Lemma skip_ws_length (s : jsstring) : length (skip_ws s) <= length s.
Proof.
  induction s as [|c r IH]; cbn; [lia|]. destruct (is_json_ws c); cbn; lia.
Qed.

Lemma skip_ws_cons (s r : jsstring) (c : N) :
  skip_ws s = c :: r -> length r < length s.
Proof. intros H. pose proof (skip_ws_length s) as L. rewrite H in L. cbn in L. lia. Qed.

Lemma parse_chars_shorter_le (n : nat) (s t r : jsstring) :
  length s <= n -> parse_chars s = Some (t, r) -> length r < length s.
Proof.
  revert s t r. induction n as [|n IH]; intros s t r Hn H.
  - destruct s; [discriminate | cbn in Hn; lia].
  - destruct s as [|c s]; [discriminate|]. cbn [parse_chars] in H. cbn [length] in *.
    destruct (c =? quote)%N.
    { injection H as _ <-. lia. }
    destruct (c =? ch "\")%N.
    + destruct s as [|e s1]; [discriminate|]. cbn [length] in *.
      destruct (e =? ch "u")%N.
      * destruct s1 as [|h1 [|h2 [|h3 [|h4 s2]]]]; try discriminate.
        destruct (hex4 h1 h2 h3 h4); [|discriminate].
        destruct (parse_chars s2) as [[t' r']|] eqn:Hp; [|discriminate].
        injection H as _ <-. apply IH in Hp; cbn [length] in *; lia.
      * destruct (unescape e); [|discriminate].
        destruct (parse_chars s1) as [[t' r']|] eqn:Hp; [|discriminate].
        injection H as _ <-. apply IH in Hp; lia.
    + destruct (c <? 32)%N; [discriminate|].
      destruct (parse_chars s) as [[t' r']|] eqn:Hp; [|discriminate].
      injection H as _ <-. apply IH in Hp; lia.
Qed.

Lemma parse_chars_shorter (s t r : jsstring) :
  parse_chars s = Some (t, r) -> length r < length s.
Proof. apply (parse_chars_shorter_le (length s)). lia. Qed.

Lemma span_digits_length (s : jsstring) : length (snd (span_digits s)) <= length s.
Proof.
  induction s as [|c r IH]; cbn; [lia|].
  destruct (is_digit c); [|cbn; lia].
  destruct (span_digits r). cbn in *. lia.
Qed.

Lemma parse_int_shorter (s ds r : jsstring) :
  parse_int s = Some (ds, r) -> length r < length s.
Proof.
  destruct s as [|c s]; [discriminate|]. cbn [parse_int length].
  destruct (c =? 48)%N; [intros H; injection H as _ <-; lia|].
  destruct (in_range 49 57 c); [|discriminate].
  pose proof (span_digits_length s) as L. destruct (span_digits s).
  intros H. injection H as _ <-. cbn in L. lia.
Qed.

Lemma parse_frac_length (s ds r : jsstring) :
  parse_frac s = Some (ds, r) -> length r <= length s.
Proof.
  destruct s as [|c s]; cbn [parse_frac length].
  - intros H. injection H as _ <-. cbn. lia.
  - destruct (c =? ch ".")%N.
    + pose proof (span_digits_length s) as L. destruct (span_digits s) as [[|d ds'] r'].
      * discriminate.
      * intros H. injection H as _ <-. cbn in L. lia.
    + intros H. injection H as _ <-. cbn. lia.
Qed.

Lemma exp_digits_length (sg : Z) (s r : jsstring) (x : Z) :
  exp_digits sg s = Some (x, r) -> length r <= length s.
Proof.
  unfold exp_digits. pose proof (span_digits_length s) as L.
  destruct (span_digits s) as [[|d l] r']; [discriminate|].
  intros H. injection H as _ <-. exact L.
Qed.

Lemma parse_exp_length (s r : jsstring) (x : Z) :
  parse_exp s = Some (x, r) -> length r <= length s.
Proof.
  destruct s as [|c s]; cbn [parse_exp length].
  - intros H. injection H as _ <-. cbn. lia.
  - destruct ((c =? ch "e")%N || (c =? ch "E")%N).
    + destruct s as [|c1 s']; [discriminate|].
      destruct (c1 =? ch "-")%N; [|destruct (c1 =? ch "+")%N];
        intros H; apply exp_digits_length in H; cbn [length] in *; lia.
    + intros H. injection H as _ <-. cbn. lia.
Qed.

Lemma number_body_shorter (neg : bool) (s r : jsstring) (v : json) :
  number_body neg s = Some (v, r) -> length r < length s.
Proof.
  unfold number_body.
  destruct (parse_int s) as [[ip s2]|] eqn:Hi; [|discriminate].
  destruct (parse_frac s2) as [[fp s3]|] eqn:Hf; [|discriminate].
  destruct (parse_exp s3) as [[x s4]|] eqn:He; [|discriminate].
  intros H. injection H as _ <-.
  apply parse_int_shorter in Hi. apply parse_frac_length in Hf.
  apply parse_exp_length in He. lia.
Qed.

Lemma parse_number_shorter (s r : jsstring) (v : json) :
  parse_number s = Some (v, r) -> length r < length s.
Proof.
  destruct s as [|c s']; [discriminate|]. cbn [parse_number].
  destruct (c =? ch "-")%N; intros H; apply number_body_shorter in H;
    cbn [length] in *; lia.
Qed.

Lemma strip_prefix_length (w s r : jsstring) :
  strip_prefix w s = Some r -> length r + length w = length s.
Proof.
  revert s. induction w as [|a w IH]; intros s H.
  - injection H as <-. cbn. lia.
  - destruct s as [|b s]; [discriminate|]. cbn [strip_prefix] in H.
    destruct (a =? b)%N; [|discriminate]. apply IH in H. cbn. lia.
Qed.

Lemma parse_word_shorter (w : string) (v v' : json) (s r : jsstring) :
  w <> EmptyString -> parse_word w v s = Parsed v' r -> length r < length s.
Proof.
  intros Hw. unfold parse_word.
  destruct (strip_prefix (str w) s) as [r'|] eqn:H; [|discriminate].
  intros E. injection E as _ <-. apply strip_prefix_length in H.
  destruct w; [congruence|]. cbn in H. lia.
Qed.

Lemma parse_value_S (f : nat) (s : jsstring) :
  parse_value (S f) s =
  match skip_ws s with
  | [] => Malformed
  | c :: r =>
      if (c =? ch "[")%N then
        match skip_ws r with
        | [] => Malformed
        | c1 :: r1 =>
            if (c1 =? ch "]")%N then Parsed (JArray []) r1
            else parse_elements f r []
        end
      else if (c =? ch "{")%N then
        match skip_ws r with
        | [] => Malformed
        | c1 :: r1 =>
            if (c1 =? ch "}")%N then Parsed (JObject []) r1
            else parse_members f r []
        end
      else if (c =? quote)%N then
        match parse_chars r with
        | Some (t, rest) => Parsed (JString t) rest
        | None => Malformed
        end
      else if (c =? ch "n")%N then parse_word "null" JNull (c :: r)
      else if (c =? ch "t")%N then parse_word "true" (JBool true) (c :: r)
      else if (c =? ch "f")%N then parse_word "false" (JBool false) (c :: r)
      else of_option (parse_number (c :: r))
  end.
Proof. reflexivity. Qed.

Lemma parse_members_S (f : nat) (s : jsstring) (acc : list (jsstring * json)) :
  parse_members (S f) s acc =
  match skip_ws s with
  | [] => Malformed
  | c :: r =>
      if (c =? quote)%N then
        match parse_chars r with
        | None => Malformed
        | Some (k, r1) =>
            match skip_ws r1 with
            | [] => Malformed
            | c1 :: r2 =>
                if (c1 =? ch ":")%N then
                  match parse_value f r2 with
                  | Parsed v r3 =>
                      match skip_ws r3 with
                      | [] => Malformed
                      | c3 :: r4 =>
                          if (c3 =? ch ",")%N then parse_members f r4 (obj_set k v acc)
                          else if (c3 =? ch "}")%N then Parsed (JObject (obj_set k v acc)) r4
                          else Malformed
                      end
                  | Malformed => Malformed
                  | OutOfFuel => OutOfFuel
                  end
                else Malformed
            end
        end
      else Malformed
  end.
Proof. reflexivity. Qed.

Lemma parse_consumes (n : nat) : consumes n.
Proof.
  induction n as [|n [IHv [IHe IHm]]]; [repeat split; intros; discriminate|].
  repeat split.
  - intros s v r. rewrite parse_value_S.
    destruct (skip_ws s) as [|c s1] eqn:Hs; [discriminate|].
    apply skip_ws_cons in Hs.
    destruct (c =? ch "[")%N.
    { destruct (skip_ws s1) as [|c1 s2] eqn:Hs1; [discriminate|].
      apply skip_ws_cons in Hs1.
      destruct (c1 =? ch "]")%N.
      - intros H. injection H as _ <-. lia.
      - intros H. apply IHe in H. lia. }
    destruct (c =? ch "{")%N.
    { destruct (skip_ws s1) as [|c1 s2] eqn:Hs1; [discriminate|].
      apply skip_ws_cons in Hs1.
      destruct (c1 =? ch "}")%N.
      - intros H. injection H as _ <-. lia.
      - intros H. apply IHm in H. lia. }
    destruct (c =? quote)%N.
    { destruct (parse_chars s1) as [[t rest]|] eqn:Hp; [|discriminate].
      apply parse_chars_shorter in Hp. intros H. injection H as _ <-. lia. }
    destruct (c =? ch "n")%N.
    { intros H. apply parse_word_shorter in H; [cbn [length] in H; lia | discriminate]. }
    destruct (c =? ch "t")%N.
    { intros H. apply parse_word_shorter in H; [cbn [length] in H; lia | discriminate]. }
    destruct (c =? ch "f")%N.
    { intros H. apply parse_word_shorter in H; [cbn [length] in H; lia | discriminate]. }
    destruct (parse_number (c :: s1)) as [[w rest]|] eqn:Hp; [|discriminate].
    apply parse_number_shorter in Hp. cbn [of_option length] in *.
    intros H. injection H as _ <-. lia.
  - intros s acc v r. rewrite parse_elements_S.
    destruct (parse_value n s) as [w s1| |] eqn:Hv; try discriminate.
    apply IHv in Hv.
    destruct (skip_ws s1) as [|c s2] eqn:Hs; [discriminate|].
    apply skip_ws_cons in Hs.
    destruct (c =? ch ",")%N.
    + intros H. apply IHe in H. lia.
    + destruct (c =? ch "]")%N; [|discriminate].
      intros H. injection H as _ <-. lia.
  - intros s acc v r. rewrite parse_members_S.
    destruct (skip_ws s) as [|c s1] eqn:Hs; [discriminate|].
    apply skip_ws_cons in Hs.
    destruct (c =? quote)%N; [|discriminate].
    destruct (parse_chars s1) as [[k s2]|] eqn:Hp; [|discriminate].
    apply parse_chars_shorter in Hp.
    destruct (skip_ws s2) as [|c1 s3] eqn:Hs2; [discriminate|].
    apply skip_ws_cons in Hs2.
    destruct (c1 =? ch ":")%N; [|discriminate].
    destruct (parse_value n s3) as [w s4| |] eqn:Hv; try discriminate.
    apply IHv in Hv.
    destruct (skip_ws s4) as [|c3 s5] eqn:Hs4; [discriminate|].
    apply skip_ws_cons in Hs4.
    destruct (c3 =? ch ",")%N.
    + intros H. apply IHm in H. lia.
    + destruct (c3 =? ch "}")%N; [|discriminate].
      intros H. injection H as _ <-. lia.
Qed.

Lemma parse_enough_fuel (n : nat) : enough_fuel n.
Proof.
  induction n as [|n [IHv [IHe IHm]]]; [repeat split; intros; lia|].
  destruct (parse_consumes n) as [Cv _].
  repeat split.
  - intros s Hn. rewrite parse_value_S.
    destruct (skip_ws s) as [|c s1] eqn:Hs; [discriminate|].
    apply skip_ws_cons in Hs.
    destruct (c =? ch "[")%N.
    { destruct (skip_ws s1) as [|c1 s2]; [discriminate|].
      destruct (c1 =? ch "]")%N; [discriminate|]. apply IHe. lia. }
    destruct (c =? ch "{")%N.
    { destruct (skip_ws s1) as [|c1 s2]; [discriminate|].
      destruct (c1 =? ch "}")%N; [discriminate|]. apply IHm. lia. }
    destruct (c =? quote)%N.
    { destruct (parse_chars s1) as [[t rest]|]; discriminate. }
    unfold parse_word.
    destruct (c =? ch "n")%N; [destruct (strip_prefix _ _); discriminate|].
    destruct (c =? ch "t")%N; [destruct (strip_prefix _ _); discriminate|].
    destruct (c =? ch "f")%N; [destruct (strip_prefix _ _); discriminate|].
    destruct (parse_number (c :: s1)) as [[w rest]|]; discriminate.
  - intros s acc Hn. rewrite parse_elements_S.
    destruct (parse_value n s) as [w s1| |] eqn:Hv; [|discriminate|].
    + apply Cv in Hv.
      destruct (skip_ws s1) as [|c s2] eqn:Hs; [discriminate|].
      apply skip_ws_cons in Hs.
      destruct (c =? ch ",")%N; [apply IHe; lia|].
      destruct (c =? ch "]")%N; discriminate.
    + exfalso. revert Hv. apply IHv. lia.
  - intros s acc Hn. rewrite parse_members_S.
    destruct (skip_ws s) as [|c s1] eqn:Hs; [discriminate|].
    apply skip_ws_cons in Hs.
    destruct (c =? quote)%N; [|discriminate].
    destruct (parse_chars s1) as [[k s2]|] eqn:Hp; [|discriminate].
    apply parse_chars_shorter in Hp.
    destruct (skip_ws s2) as [|c1 s3] eqn:Hs2; [discriminate|].
    apply skip_ws_cons in Hs2.
    destruct (c1 =? ch ":")%N; [|discriminate].
    destruct (parse_value n s3) as [w s4| |] eqn:Hv; [|discriminate|].
    + apply Cv in Hv.
      destruct (skip_ws s4) as [|c3 s5] eqn:Hs4; [discriminate|].
      apply skip_ws_cons in Hs4.
      destruct (c3 =? ch ",")%N; [apply IHm; lia|].
      destruct (c3 =? ch "}")%N; discriminate.
    + exfalso. revert Hv. apply IHv. lia.
Qed.

(** The fuel of [JSON_parse] never runs out: a text it rejects is
    malformed. *)
Lemma parse_value_fuel (text : jsstring) :
  parse_value (parse_fuel text) text <> OutOfFuel.
Proof. apply parse_enough_fuel. unfold parse_fuel. lia. Qed.
